(** * EcoMetrics: the supply-chain globe (versor rotation, hover, particles)

    A shallow embedding of the interactive globe of
    [src/components/MetricCard.tsx] (the [SupplyChainMap] component that
    follows [MetricCard] in that file): the [versor] quaternion helpers,
    the pointer handlers installed by the drag effect, the arc sampling
    loop and the particle update of [render].

    Numbers.  A JavaScript [number] is a binary64 float.  The geometry
    (sines, cosines, square roots, arctangents) is embedded over the real
    numbers [R]: every statement proved about it is a statement about the
    exact arithmetic the code approximates.  Where only additions and
    comparisons are involved and rounding decides what the code does (the
    counter of the sampling loop, the particle increment) the code is
    embedded a second time over Rocq's primitive binary64 floats, which
    compute exactly what the engine computes. *)

From Stdlib Require Import PrimFloat.
From Stdlib Require Import Reals Lra Lia Psatz List Bool String.
From Stdlib Require Import RNsatz.
From Stdlib Require Import Sorting.Sorted.
Import ListNotations.

(* Decimal literals of binary64 values are read to the nearest float, as
   the engine reads them. *)
#[local] Set Warnings "-inexact-float".

Local Open Scope R_scope.

(** ** Tuples of numbers, as the source has them *)

(** [[number, number]]: a geographic point [[lng, lat]] in degrees, or a
    screen position [[x, y]] in pixels. *)
Definition pair2 : Type := (R * R)%type.

(** [[number, number, number]]: a 3D vector, or the three Euler angles
    of a rotation in degrees. *)
Definition triple : Type := (R * R * R)%type.

(** [[number, number, number, number]]: a quaternion [[w, x, y, z]]. *)
Definition quad : Type := (R * R * R * R)%type.

(** ** The [Math] functions the source calls *)

Module JsMath.

(** [Math.atan2(y, x)] on finite arguments (signed zeros are not
    distinguished over [R]). *)
Definition atan2 (y x : R) : R :=
  if Rlt_dec 0 x then atan (y / x)
  else if Rlt_dec x 0 then
    (if Rle_dec 0 y then atan (y / x) + PI else atan (y / x) - PI)
  else if Rlt_dec 0 y then PI / 2
  else if Rlt_dec y 0 then - (PI / 2)
  else 0.

(** Operations that yield [NaN] (or an infinity) outside their domain,
    with [None] standing for a result that is not a finite number. *)
Definition sqrt_checked (x : R) : option R :=
  if Rlt_dec x 0 then None else Some (sqrt x).

Definition div_checked (a b : R) : option R :=
  if Req_dec_T b 0 then None else Some (a / b).

Definition asin_checked (x : R) : option R :=
  if Rlt_dec x (-1) then None
  else if Rlt_dec 1 x then None
  else Some (asin x).

End JsMath.

(** ** [versor]: quaternion helpers (lines 229-268) *)

Module versor.

Definition cartesian (e : pair2) : triple :=
  let l := fst e * PI / 180 in
  let p := snd e * PI / 180 in
  let cp := cos p in
  (cp * cos l, cp * sin l, sin p).

Definition dot (v0 v1 : triple) : R :=
  let '(a0, a1, a2) := v0 in
  let '(b0, b1, b2) := v1 in
  a0 * b0 + a1 * b1 + a2 * b2.

Definition cross (v0 v1 : triple) : triple :=
  let '(a0, a1, a2) := v0 in
  let '(b0, b1, b2) := v1 in
  (a1 * b2 - a2 * b1,
   a2 * b0 - a0 * b2,
   a0 * b1 - a1 * b0).

Definition rotation (v0 v1 : triple) : quad :=
  let '(c0, c1, c2) := cross v0 v1 in
  let d := dot v0 v1 in
  if Rlt_dec d 0
  then (sqrt ((1 - d) / 2),
        c0 / sqrt (2 * (1 - d)),
        c1 / sqrt (2 * (1 - d)),
        c2 / sqrt (2 * (1 - d)))
  else (sqrt ((1 + d) / 2),
        c0 / sqrt (2 * (1 + d)),
        c1 / sqrt (2 * (1 + d)),
        c2 / sqrt (2 * (1 + d))).

Definition multiply (q0 q1 : quad) : quad :=
  let '(a0, a1, a2, a3) := q0 in
  let '(b0, b1, b2, b3) := q1 in
  (a0 * b0 - a1 * b1 - a2 * b2 - a3 * b3,
   a0 * b1 + a1 * b0 + a2 * b3 - a3 * b2,
   a0 * b2 - a1 * b3 + a2 * b0 + a3 * b1,
   a0 * b3 + a1 * b2 - a2 * b1 + a3 * b0).

Definition toEuler (q : quad) : triple :=
  let '(q0, q1, q2, q3) := q in
  (JsMath.atan2 (2 * (q0 * q1 + q2 * q3)) (1 - 2 * (q1 * q1 + q2 * q2)) * 180 / PI,
   asin (Rmax (-1) (Rmin 1 (2 * (q0 * q2 - q3 * q1)))) * 180 / PI,
   JsMath.atan2 (2 * (q0 * q3 + q1 * q2)) (1 - 2 * (q2 * q2 + q3 * q3)) * 180 / PI).

End versor.

(** ** Vocabulary of the claims about [versor] *)

(** Squared Euclidean norm of a vector and of a quaternion, and the
    magnitudes themselves. *)
Definition norm2_3 (v : triple) : R :=
  let '(x, y, z) := v in x * x + y * y + z * z.

Definition norm2_4 (q : quad) : R :=
  let '(w, x, y, z) := q in w * w + x * x + y * y + z * z.

Definition magnitude3 (v : triple) : R := sqrt (norm2_3 v).
Definition magnitude4 (q : quad) : R := sqrt (norm2_4 q).

Definition is_unit (v : triple) : Prop := norm2_3 v = 1.


(** ** The dataset (lines 91-226) *)

Inductive TransportMode : Type := ship | truck | rail | air.

Record SupplyChainNode : Type := {
  id : string;
  name : string;
  country : string;
  countryCode : string;
  lat : R;
  lng : R;
  material : string;
  annualVolume : string;
  transportMode : TransportMode;
  distanceKm : R;
  emissionsKgCO2 : R;
  emissionFactor : R
}.

Definition SUPPLY_CHAIN_DATA : list SupplyChainNode := [
  {| id := "supplier-1"; name := "Shanghai Electronics Co."; country := "China";
     countryCode := "CHN"; lat := 31.2304; lng := 121.4737;
     material := "Electronic Components"; annualVolume := "45 tons";
     transportMode := ship; distanceKm := 11500; emissionsKgCO2 := 2070;
     emissionFactor := 0.004 |};
  {| id := "supplier-2"; name := "Bavaria Steel GmbH"; country := "Germany";
     countryCode := "DEU"; lat := 48.1351; lng := 11.582;
     material := "Steel Alloys"; annualVolume := "120 tons";
     transportMode := ship; distanceKm := 7200; emissionsKgCO2 := 3456;
     emissionFactor := 0.004 |};
  {| id := "supplier-3"; name := "Monterrey Parts SA"; country := "Mexico";
     countryCode := "MEX"; lat := 25.6866; lng := -100.3161;
     material := "Plastic Housings"; annualVolume := "30 tons";
     transportMode := truck; distanceKm := 1800; emissionsKgCO2 := 2700;
     emissionFactor := 0.05 |};
  {| id := "supplier-4"; name := "Toronto Chemicals Inc."; country := "Canada";
     countryCode := "CAN"; lat := 43.6532; lng := -79.3832;
     material := "Industrial Chemicals"; annualVolume := "15 tons";
     transportMode := rail; distanceKm := 800; emissionsKgCO2 := 360;
     emissionFactor := 0.03 |};
  {| id := "supplier-5"; name := "Vietnam Textiles Ltd."; country := "Vietnam";
     countryCode := "VNM"; lat := 10.8231; lng := 106.6297;
     material := "Technical Fabrics"; annualVolume := "8 tons";
     transportMode := ship; distanceKm := 14200; emissionsKgCO2 := 454;
     emissionFactor := 0.004 |};
  {| id := "supplier-6"; name := "UK Precision Ltd."; country := "United Kingdom";
     countryCode := "GBR"; lat := 51.5074; lng := -0.1278;
     material := "Precision Instruments"; annualVolume := "2 tons";
     transportMode := air; distanceKm := 5900; emissionsKgCO2 := 5900;
     emissionFactor := 0.5 |};
  {| id := "supplier-7"; name := "Brazil Mining Corp."; country := "Brazil";
     countryCode := "BRA"; lat := -23.5505; lng := -46.6333;
     material := "Raw Minerals"; annualVolume := "200 tons";
     transportMode := ship; distanceKm := 8100; emissionsKgCO2 := 6480;
     emissionFactor := 0.004 |};
  {| id := "supplier-8"; name := "Japan Motors Co."; country := "Japan";
     countryCode := "JPN"; lat := 35.6762; lng := 139.6503;
     material := "Electric Motors"; annualVolume := "25 tons";
     transportMode := ship; distanceKm := 10200; emissionsKgCO2 := 1020;
     emissionFactor := 0.004 |}
]%string.

(** The [facilityLocation] prop and its default (line 271). *)
Record FacilityLocation : Type := {
  f_lat : R;
  f_lng : R;
  f_name : string
}.

Definition defaultFacilityLocation : FacilityLocation :=
  {| f_lat := 39.8283; f_lng := -98.5795; f_name := "US Facility" |}.

(** ** The component state and the projection it configures *)

(** The [dimensions] state: [{ width, height }]. *)
Record Dimensions : Type := { width : R; height : R }.

(** What the source sets on [geoOrthographic()]:
    [.scale(s).translate(t).rotate(r).clipAngle(a)]. *)
Record Projection : Type := {
  scale : R;
  translate : pair2;
  rotate : triple;
  clipAngle : R
}.

(** The projection built at lines 327-331, 513-517, 545-549, 578-582:
    [scale = Math.min(width, height) / 2.2], centred on the canvas,
    rotated by the given angles, clipped at 90 degrees. *)
Definition mkProjection (dims : Dimensions) (r : triple) : Projection :=
  {| scale := Rmin (width dims) (height dims) / 2.2;
     translate := (width dims / 2, height dims / 2);
     rotate := r;
     clipAngle := 90 |}.

(** The initial [rotation] state (line 281). *)
Definition initialRotation (f : FacilityLocation) : triple :=
  (- f_lng f, - f_lat f, 0).

(** The initial [dimensions] state (line 275). *)
Definition initialDimensions : Dimensions := {| width := 800; height := 500 |}.

(** A pointer event, and the canvas rectangle of
    [canvas.getBoundingClientRect()]. *)
Record MouseEvent : Type := { clientX : R; clientY : R; pageX : R; pageY : R }.
Record DOMRect : Type := { left : R; top : R }.

(** The [tooltip] state, and the cursor style [handleHover] sets. *)
Record Tooltip : Type := { t_x : R; t_y : R; content : SupplyChainNode }.
Inductive Cursor : Type := pointer | grab.

(** The variables of one run of the drag effect (lines 502-623): the
    [dimensions] and [rotation] its closures captured, and its local
    [v0], [r0], [q0]. *)
Record DragEffect : Type := {
  e_dimensions : Dimensions;
  e_rotation : triple;
  v0 : option triple;
  r0 : option triple;
  q0 : option quad
}.

(** Componentwise sum of two angle triples (lines 558-562). *)
Definition addEuler (r e : triple) : triple :=
  let '(r_0, r_1, r_2) := r in
  let '(e_0, e_1, e_2) := e in
  (r_0 + e_0, r_1 + e_1, r_2 + e_2).

(** ** The pointer handlers (lines 519-608) *)

Section Handlers.

(** [projection(point)] and [projection.invert(point)] of the d3-geo
    projection configured as above; d3-geo is an external library, so
    the handlers are embedded for an arbitrary one. *)
Variable geoProject : Projection -> pair2 -> option pair2.
Variable geoInvert : Projection -> pair2 -> option pair2.

Definition handleMouseDown (c : DragEffect) (rect : DOMRect) (event : MouseEvent)
  : DragEffect :=
  let x := clientX event - left rect in
  let y := clientY event - top rect in
  match geoInvert (mkProjection (e_dimensions c) (e_rotation c)) (x, y) with
  | Some pos =>
      {| e_dimensions := e_dimensions c;
         e_rotation := e_rotation c;
         v0 := Some (versor.cartesian pos);
         r0 := Some (e_rotation c);
         q0 := Some (1, 0, 0, 0) |}
  | None => c
  end.

(** The two quaternions one pointer-move builds: [q1] and
    [q = versor.multiply(q0, q1)], the one given to [versor.toEuler]. *)
Definition moveQuaternions (c : DragEffect) (rect : DOMRect) (event : MouseEvent)
  : option (triple * quad * quad) :=
  match v0 c, r0 c, q0 c with
  | Some v_0, Some r_0, Some q_0 =>
      let x := clientX event - left rect in
      let y := clientY event - top rect in
      match geoInvert (mkProjection (e_dimensions c) r_0) (x, y) with
      | Some pos =>
          let v1 := versor.cartesian pos in
          let q1 := versor.rotation v_0 v1 in
          let q := versor.multiply q_0 q1 in
          Some (r_0, q1, q)
      | None => None
      end
  | _, _, _ => None
  end.

(** [handleMouseMove]: the argument of its [setRotation] call, [None]
    when it makes none. *)
Definition handleMouseMove (c : DragEffect) (rect : DOMRect) (event : MouseEvent)
  : option triple :=
  match moveQuaternions c rect event with
  | Some (r_0, _, q) => Some (addEuler r_0 (versor.toEuler q))
  | None => None
  end.

Definition handleMouseUp (c : DragEffect) : DragEffect :=
  {| e_dimensions := e_dimensions c;
     e_rotation := e_rotation c;
     v0 := None; r0 := None; q0 := None |}.

(** The pixel distance computed at line 589. *)
Definition pixelDistance (pos : pair2) (x y : R) : R :=
  sqrt ((fst pos - x) ^ 2 + (snd pos - y) ^ 2).

(** The loop of lines 586-595 over a list of suppliers: the first one
    that projects and lies closer than 12 pixels ends the search. *)
Fixpoint hoverSearch (proj : Projection) (x y : R) (suppliers : list SupplyChainNode)
  : option SupplyChainNode :=
  match suppliers with
  | [] => None
  | supplier :: rest =>
      match geoProject proj (lng supplier, lat supplier) with
      | Some pos =>
          if Rlt_dec (pixelDistance pos x y) 12 then Some supplier
          else hoverSearch proj x y rest
      | None => hoverSearch proj x y rest
      end
  end.

(** [handleHover]: the argument of its [setTooltip] call and the cursor
    it sets. *)
Definition handleHoverOn (suppliers : list SupplyChainNode)
    (c : DragEffect) (rect : DOMRect) (event : MouseEvent)
  : option Tooltip * Cursor :=
  let x := clientX event - left rect in
  let y := clientY event - top rect in
  let projection := mkProjection (e_dimensions c) (e_rotation c) in
  match hoverSearch projection x y suppliers with
  | Some found =>
      (Some {| t_x := pageX event; t_y := pageY event; content := found |}, pointer)
  | None => (None, grab)
  end.

Definition handleHover : DragEffect -> DOMRect -> MouseEvent -> option Tooltip * Cursor :=
  handleHoverOn SUPPLY_CHAIN_DATA.

(** The hover rule in the words of the specification (section 4.5):
    among the markers that project, take one at minimum pixel distance,
    and emit it when that minimum is at most 12. *)
Fixpoint nearestMarker (proj : Projection) (x y : R) (suppliers : list SupplyChainNode)
  : option (SupplyChainNode * R) :=
  match suppliers with
  | [] => None
  | supplier :: rest =>
      match geoProject proj (lng supplier, lat supplier), nearestMarker proj x y rest with
      | Some pos, Some (best, d) =>
          if Rle_dec (pixelDistance pos x y) d
          then Some (supplier, pixelDistance pos x y)
          else Some (best, d)
      | Some pos, None => Some (supplier, pixelDistance pos x y)
      | None, best => best
      end
  end.

Definition hoverNearestWithin (proj : Projection) (x y : R)
    (suppliers : list SupplyChainNode) : option SupplyChainNode :=
  match nearestMarker proj x y suppliers with
  | Some (supplier, d) => if Rle_dec d 12 then Some supplier else None
  | None => None
  end.

(** A marker is within reach of the pointer when it projects and its
    pixel distance is below 12. *)
Definition withinReach (proj : Projection) (x y : R) (supplier : SupplyChainNode) : Prop :=
  exists pos, geoProject proj (lng supplier, lat supplier) = Some pos
              /\ pixelDistance pos x y < 12.

(** *** The component as a transition system *)

Record Component : Type := {
  dimensions : Dimensions;
  rotation : triple;
  tooltip : option Tooltip;
  effect : DragEffect
}.

(** A run of the drag effect: fresh closures over the current state,
    with [v0 = r0 = q0 = null]. *)
Definition runEffect (dims : Dimensions) (r : triple) : DragEffect :=
  {| e_dimensions := dims; e_rotation := r; v0 := None; r0 := None; q0 := None |}.

Definition mount (f : FacilityLocation) : Component :=
  {| dimensions := initialDimensions;
     rotation := initialRotation f;
     tooltip := None;
     effect := runEffect initialDimensions (initialRotation f) |}.

(** What the host delivers.  [EffectRerun] is React running the effect
    again (its dependencies are [dimensions] and [rotation]), which it
    does some time after either has changed; [Resize] carries the width
    of the container (lines 290-298). *)
Inductive Event : Type :=
| MouseDown (rect : DOMRect) (event : MouseEvent)
| MouseMove (rect : DOMRect) (event : MouseEvent)
| MouseUp
| MouseLeave
| Resize (containerWidth : R)
| EffectRerun.

Definition withEffect (st : Component) (c : DragEffect) : Component :=
  {| dimensions := dimensions st; rotation := rotation st;
     tooltip := tooltip st; effect := c |}.

(** One event.  [mousemove] has two listeners, [handleMouseMove] then
    [handleHover] (lines 611-612). *)
Definition step (st : Component) (ev : Event) : Component :=
  match ev with
  | MouseDown rect event => withEffect st (handleMouseDown (effect st) rect event)
  | MouseMove rect event =>
      {| dimensions := dimensions st;
         rotation := match handleMouseMove (effect st) rect event with
                     | Some r => r
                     | None => rotation st
                     end;
         tooltip := fst (handleHover (effect st) rect event);
         effect := effect st |}
  | MouseUp | MouseLeave => withEffect st (handleMouseUp (effect st))
  | Resize containerWidth =>
      let size := Rmin containerWidth 600 in
      {| dimensions := {| width := size; height := size |};
         rotation := rotation st; tooltip := tooltip st; effect := effect st |}
  | EffectRerun => withEffect st (runEffect (dimensions st) (rotation st))
  end.

Definition run (st : Component) (evs : list Event) : Component :=
  fold_left step evs st.

(** The controller is Dragging when the three drag variables are set. *)
Definition Dragging (c : DragEffect) : Prop :=
  exists v_0 r_0 q_0, v0 c = Some v_0 /\ r0 c = Some r_0 /\ q0 c = Some q_0.

End Handlers.

(** ** [render]: the particle update (lines 480-483) *)

Definition updateParticle (p : R) : R :=
  let newP := p + 0.003 in
  if Rlt_dec 1 newP then 0 else newP.

Definition updateParticles (ps : list R) : list R := map updateParticle ps.

(** [n] render ticks. *)
Fixpoint ticks (n : nat) (p : R) : R :=
  match n with
  | O => p
  | S k => ticks k (updateParticle p)
  end.

(** ** The same loops over binary64 *)

Module Binary64.
Local Open Scope float_scope.

(** The literals, rounded to binary64 as the engine's parser rounds
    them: [0.003], [0.02]. *)
Definition increment : float := 0x1.89374bc6a7efap-9.
Definition arcStep : float := 0x1.47ae147ae147bp-6.

(** Lines 480-483. *)
Definition updateParticle (p : float) : float :=
  let newP := p + increment in
  if 1 <? newP then 0 else newP.

Section Arc.

(** The point type and [interpolate = geoInterpolate(source, target)],
    d3-geo's interpolator for the route (line 396). *)
Variable Point : Type.
Variable interpolate : float -> Point.

(** The loop of lines 398-400,
    [for (let t = 0; t <= 1; t += 0.02) arcPoints.push(interpolate(t))],
    with [None] when the fuel runs out before the loop ends.  [arcTimes]
    records the values of [t] the body ran at. *)
Fixpoint arcLoop (fuel : nat) (t : float) (arcPoints : list Point) : option (list Point) :=
  match fuel with
  | O => None
  | S k =>
      if t <=? 1 then arcLoop k (t + arcStep) (arcPoints ++ [interpolate t])
      else Some arcPoints
  end.

Definition arcPoints (fuel : nat) : option (list Point) := arcLoop fuel 0 [].

End Arc.

(** The parameters the loop visits. *)
Definition arcTimes (fuel : nat) : option (list float) :=
  arcPoints float (fun t => t) fuel.

End Binary64.

(** ** Rotating a vector by a quaternion *)

(** The rotation a unit quaternion [q] stands for sends [v] to
    [q v q*], the products being [versor.multiply] and a vector
    [(x, y, z)] read as the quaternion [(0, x, y, z)]. *)
Definition conjugate (q : quad) : quad :=
  let '(w, x, y, z) := q in (w, - x, - y, - z).

Definition rotateVector (q : quad) (v : triple) : triple :=
  let '(x, y, z) := v in
  let '(_, x', y', z') :=
    versor.multiply (versor.multiply q (0, x, y, z)) (conjugate q) in
  (x', y', z').

(** [versor.rotation] with every square root and division checked:
    [None] as soon as one of them leaves its domain. *)
Definition quadChecked (w : option R) (c0 c1 c2 : R) (k : option R) : option quad :=
  match w, k with
  | Some w', Some k' =>
      match JsMath.div_checked c0 k', JsMath.div_checked c1 k', JsMath.div_checked c2 k' with
      | Some x, Some y, Some z => Some (w', x, y, z)
      | _, _, _ => None
      end
  | _, _ => None
  end.

Definition rotationChecked (v_0 v_1 : triple) : option quad :=
  let '(c0, c1, c2) := versor.cross v_0 v_1 in
  let d := versor.dot v_0 v_1 in
  if Rlt_dec d 0
  then quadChecked (JsMath.sqrt_checked ((1 - d) / 2)) c0 c1 c2
                   (JsMath.sqrt_checked (2 * (1 - d)))
  else quadChecked (JsMath.sqrt_checked ((1 + d) / 2)) c0 c1 c2
                   (JsMath.sqrt_checked (2 * (1 + d))).

(** [versor.toEuler] with the arcsine checked. *)
Definition toEulerChecked (q : quad) : option triple :=
  let '(q_0, q_1, q_2, q_3) := q in
  match JsMath.asin_checked (Rmax (-1) (Rmin 1 (2 * (q_0 * q_2 - q_3 * q_1)))) with
  | Some a =>
      Some (JsMath.atan2 (2 * (q_0 * q_1 + q_2 * q_3)) (1 - 2 * (q_1 * q_1 + q_2 * q_2)) * 180 / PI,
            a * 180 / PI,
            JsMath.atan2 (2 * (q_0 * q_3 + q_1 * q_2)) (1 - 2 * (q_2 * q_2 + q_3 * q_3)) * 180 / PI)
  | None => None
  end.

(** The divisor [versor.rotation] uses for the pair. *)
Definition rotationDivisor (v_0 v_1 : triple) : R :=
  let d := versor.dot v_0 v_1 in
  if Rlt_dec d 0 then sqrt (2 * (1 - d)) else sqrt (2 * (1 + d)).

(** ** The orthographic projection *)

(** [geoOrthographic] comes from d3-geo, an external library whose code
    is not among the sources; the source only sets its scale, centre,
    rotation and clip angle.  This module models it from section 4.1 of
    the specification, over the reals.  Coordinates (x, y, z) of the
    unit sphere have x pointing at the viewer, y to the right of the
    screen and z up; angles follow d3-geo's [rotate]: the yaw angle is
    added to the longitude of the point. *)

Module Orthographic.

(** Modelled from the spec: degrees to radians, and back. *)
Definition radians (deg : R) : R := deg * PI / 180.
Definition degrees (rad : R) : R := rad * 180 / PI.

(** Modelled from the spec: yaw, the rotation about the vertical
    axis. *)
Definition yaw (a : R) (v : triple) : triple :=
  let '(x, y, z) := v in
  (x * cos a - y * sin a, x * sin a + y * cos a, z).

(** Modelled from the spec: pitch, the rotation about the horizontal
    axis. *)
Definition pitch (a : R) (v : triple) : triple :=
  let '(x, y, z) := v in
  (x * cos a - z * sin a, y, z * cos a + x * sin a).

(** Modelled from the spec: roll, the rotation about the viewing
    axis. *)
Definition roll (a : R) (v : triple) : triple :=
  let '(x, y, z) := v in
  (x, y * cos a - z * sin a, z * cos a + y * sin a).

(** Modelled from the spec: yaw, then pitch, then roll, in that fixed
    order, by the three angles of the rotation state. *)
Definition rotate3 (r : triple) (v : triple) : triple :=
  let '(lambda, phi, gamma) := r in
  roll (radians gamma) (pitch (radians phi) (yaw (radians lambda) v)).

(** Modelled from the spec: the inverse rotation, which undoes the
    three in the opposite order. *)
Definition unrotate3 (r : triple) (v : triple) : triple :=
  let '(lambda, phi, gamma) := r in
  yaw (- radians lambda) (pitch (- radians phi) (roll (- radians gamma) v)).

(** Modelled from the spec: the depth component of a point, its rotated
    unit vector taken along the viewing axis; it is the cosine of the
    angular distance of the point from the centre of the view. *)
Definition depth (proj : Projection) (p : pair2) : R :=
  let '(x, _, _) := rotate3 (rotate proj) (versor.cartesian p) in x.

(** Modelled from the spec: the angular distance from the centre of
    the view, in degrees. *)
Definition angularDistance (proj : Projection) (p : pair2) : R :=
  degrees (acos (depth proj p)).

(** Modelled from the spec: [projection(point)], the [project] of
    section 4.1.  The point's unit-sphere coordinates are rotated, then
    projected orthographically (the two screen-plane components of the
    rotated vector, scaled and translated to screen space); the result
    is NotVisible when the depth says the point is on the far
    hemisphere. *)
Definition project (proj : Projection) (p : pair2) : option pair2 :=
  let '(x, y, z) := rotate3 (rotate proj) (versor.cartesian p) in
  if Rlt_dec x 0 then None
  else Some (fst (translate proj) + scale proj * y,
             snd (translate proj) - scale proj * z).

(** Modelled from the spec: longitude and latitude, in degrees, of a
    unit vector. *)
Definition geoOf (v : triple) : pair2 :=
  let '(x, y, z) := v in
  (degrees (JsMath.atan2 y x), degrees (asin z)).

(** Modelled from the spec: [projection.invert(point)], the [invert] of
    section 4.1: null when the screen point is farther from the centre
    than the scale; otherwise the point of the front hemisphere drawn
    there, rotated back. *)
Definition invert (proj : Projection) (s : pair2) : option pair2 :=
  let dx := fst s - fst (translate proj) in
  let dy := snd s - snd (translate proj) in
  if Rlt_dec (scale proj) (sqrt (dx * dx + dy * dy)) then None
  else
    let y := dx / scale proj in
    let z := - dy / scale proj in
    let x := sqrt (1 - (y * y + z * z)) in
    Some (geoOf (unrotate3 (rotate proj) (x, y, z))).

End Orthographic.

(** The quantity under the square roots of [versor.rotation]: [1 - d]
    on the branch [d < 0], [1 + d] on the other. *)
Definition branchTerm (d : R) : R := if Rlt_dec d 0 then 1 - d else 1 + d.

(** What every run of the drag effect keeps true of its variables: the
    anchor [v0] is a unit vector, [q0] is the identity quaternion, and
    [r0] is the rotation the effect captured. *)
Definition effectInv (c : DragEffect) : Prop :=
  (forall v, v0 c = Some v -> is_unit v)
  /\ (forall q, q0 c = Some q -> q = (1, 0, 0, 0))
  /\ (forall r, r0 c = Some r -> r = e_rotation c).

(** ** More of the [Math] functions *)

Module Math.

(** [Math.round(x)]: the nearest integer, halves going up. *)
Definition round (x : R) : R := IZR (Zfloor (x + 1 / 2)).

(** [Math.ceil(x)]. *)
Definition ceil (x : R) : R := IZR (Zceil x).

(** [Math.max(...xs)]: [None] stands for the [-Infinity] of an empty
    argument list. *)
Definition max (xs : list R) : option R :=
  match xs with
  | [] => None
  | x :: rest => Some (fold_left Rmax rest x)
  end.

End Math.

(** ** [MetricCard] (lines 38-84) *)

Module MetricCard.

Inductive TrendIcon : Type := Minus | TrendingDown | TrendingUp.

(** The optional [change] prop is [None] when [undefined]. *)
Definition getTrendIcon (change : option R) : TrendIcon :=
  match change with
  | None => Minus
  | Some c =>
      if Req_dec_T c 0 then Minus
      else if Rlt_dec c 0 then TrendingDown else TrendingUp
  end.

Definition getTrendColor (change : option R) : string :=
  match change with
  | None => "text-gray-400"
  | Some c =>
      if Req_dec_T c 0 then "text-gray-400"
      else if Rlt_dec c 0 then "text-accent-green" else "text-accent-red"
  end.

(** The number shown in the badge, [Math.abs(change)], when the badge is
    rendered at all ([change !== undefined]). *)
Definition badgeValue (change : option R) : option R :=
  match change with
  | None => None
  | Some c => Some (Rabs c)
  end.

End MetricCard.

(** ** [getRouteColor] (lines 306-313) *)

(** The three numbers [r], [g], [b] the function computes. *)
Definition routeChannels (emissions : R) : triple :=
  let t :=
    match Math.max (map emissionsKgCO2 SUPPLY_CHAIN_DATA) with
    | Some maxEmissions => emissions / maxEmissions
    | None => 0
    end in
  (Math.round (59 + t * (239 - 59)),
   Math.round (130 + t * (68 - 130)),
   Math.round (246 + t * (68 - 246))).

(** The string it returns, for a given rendering of numbers as text
    (the string concatenation of the language). *)
Definition getRouteColor (numberToString : R -> string) (emissions : R) : string :=
  let '(r, g, b) := routeChannels emissions in
  ("rgb(" ++ numberToString r ++ "," ++ numberToString g ++ ","
          ++ numberToString b ++ ")")%string.

(** ** Drawing a route (lines 402-424) *)

(** The calls [render] makes on the 2D context while drawing one arc. *)
Inductive CanvasCall : Type :=
| beginPath
| moveTo (x y : R)
| lineTo (x y : R)
| stroke
| setStrokeStyle (style : string)
| setLineWidth (w : R)
| setGlobalAlpha (a : R).

(** The body of [arcPoints.forEach], over the projected samples and the
    flag [started]. *)
Fixpoint drawArcPoints (projected : list (option pair2)) (started : bool)
  : list CanvasCall :=
  match projected with
  | [] => []
  | Some p :: rest =>
      (if started then lineTo (fst p) (snd p) else moveTo (fst p) (snd p))
        :: drawArcPoints rest true
  | None :: rest =>
      if started then stroke :: beginPath :: drawArcPoints rest false
      else drawArcPoints rest started
  end.

Definition drawArc (color : string) (projected : list (option pair2))
  : list CanvasCall :=
  beginPath :: drawArcPoints projected false
    ++ [setStrokeStyle color; setLineWidth 2; setGlobalAlpha 0.7; stroke;
        setGlobalAlpha 1].

(** The 2D context, as far as these calls go: the current path (a list
    of subpaths), the three style settings, and what has been painted:
    each [stroke] paints the current path with the current settings. *)
Record Painted : Type := {
  p_style : string;
  p_width : R;
  p_alpha : R;
  p_path : list (list pair2)
}.

Record Context2D : Type := {
  path : list (list pair2);
  strokeStyle : string;
  lineWidth : R;
  globalAlpha : R;
  painted : list Painted
}.

(** Appending a point to the last subpath; with no subpath yet,
    [lineTo] starts one, as [moveTo] does. *)
Fixpoint extendPath (subpaths : list (list pair2)) (p : pair2) : list (list pair2) :=
  match subpaths with
  | [] => [[p]]
  | [sub] => [sub ++ [p]]
  | sub :: more => sub :: extendPath more p
  end.

Definition canvasCall (ctx : Context2D) (c : CanvasCall) : Context2D :=
  match c with
  | beginPath =>
      {| path := []; strokeStyle := strokeStyle ctx; lineWidth := lineWidth ctx;
         globalAlpha := globalAlpha ctx; painted := painted ctx |}
  | moveTo x y =>
      {| path := path ctx ++ [[(x, y)]]; strokeStyle := strokeStyle ctx;
         lineWidth := lineWidth ctx; globalAlpha := globalAlpha ctx;
         painted := painted ctx |}
  | lineTo x y =>
      {| path := extendPath (path ctx) (x, y); strokeStyle := strokeStyle ctx;
         lineWidth := lineWidth ctx; globalAlpha := globalAlpha ctx;
         painted := painted ctx |}
  | stroke =>
      {| path := path ctx; strokeStyle := strokeStyle ctx;
         lineWidth := lineWidth ctx; globalAlpha := globalAlpha ctx;
         painted := painted ctx ++
           [{| p_style := strokeStyle ctx; p_width := lineWidth ctx;
               p_alpha := globalAlpha ctx; p_path := path ctx |}] |}
  | setStrokeStyle s =>
      {| path := path ctx; strokeStyle := s; lineWidth := lineWidth ctx;
         globalAlpha := globalAlpha ctx; painted := painted ctx |}
  | setLineWidth w =>
      {| path := path ctx; strokeStyle := strokeStyle ctx; lineWidth := w;
         globalAlpha := globalAlpha ctx; painted := painted ctx |}
  | setGlobalAlpha a =>
      {| path := path ctx; strokeStyle := strokeStyle ctx;
         lineWidth := lineWidth ctx; globalAlpha := a; painted := painted ctx |}
  end.

Definition canvasCalls (ctx : Context2D) (cs : list CanvasCall) : Context2D :=
  fold_left canvasCall cs ctx.

(** The runs of consecutive visible samples: those closed by a hidden
    sample, in order, and the one still open at the end (empty when the
    list ends hidden, or is empty).  [current] is the run being read. *)
Fixpoint splitRuns (projected : list (option pair2)) (current : list pair2)
  : list (list pair2) * list pair2 :=
  match projected with
  | [] => ([], current)
  | Some p :: rest => splitRuns rest (current ++ [p])
  | None :: rest =>
      let '(closed, open) := splitRuns rest [] in
      (match current with [] => closed | _ => current :: closed end, open)
  end.

(** A path of one polyline, or no path for an empty run. *)
Definition pathOfRun (run : list pair2) : list (list pair2) :=
  match run with [] => [] | _ => [run] end.

(** ** [lib/types.ts] *)

Module types.

(** [notes] is [None] when absent. *)
Record MonthlyData : Type := {
  id : string;
  year : R;
  month : R;
  electricityKwh : R;
  naturalGasTherm : R;
  waterGallons : R;
  inboundDeliveryMiles : R;
  outboundShippingMiles : R;
  employeeCount : R;
  squareFeet : R;
  notes : option string;
  createdAt : string;
  updatedAt : string
}.

Record EmissionsData : Type := {
  scope1 : R;
  scope2 : R;
  scope3 : R;
  total : R
}.

Record IntensityMetrics : Type := {
  electricityPerEmployee : R;
  electricityPerSqFt : R;
  waterPerEmployee : R;
  waterPerSqFt : R;
  carbonPerEmployee : R;
  carbonPerSqFt : R
}.

(** [{ year, quarter }]. *)
Record QuarterRef : Type := { q_year : R; quarter : R }.

Record AppSettings : Type := {
  facilityName : string;
  defaultSquareFeet : R;
  defaultEmployeeCount : R;
  adminPassword : string
}.

(** The state kept in localStorage; the functions embedded here never
    look into an objective, whose type is left open. *)
Record AppState (Objective : Type) : Type := {
  monthlyData : list MonthlyData;
  objectives : list Objective;
  settings : AppSettings
}.

Arguments monthlyData {Objective}.
Arguments objectives {Objective}.
Arguments settings {Objective}.

End types.

(** ** [lib/calculations.ts] *)

Module calculations.

Definition NATURAL_GAS_KG_CO2_PER_THERM : R := 5.3.
Definition ELECTRICITY_KG_CO2_PER_KWH : R := 0.417.
Definition TRANSPORT_KG_CO2_PER_MILE : R := 0.161.

Definition calculateEmissions (data : types.MonthlyData) : types.EmissionsData :=
  let scope1 := types.naturalGasTherm data * NATURAL_GAS_KG_CO2_PER_THERM in
  let scope2 := types.electricityKwh data * ELECTRICITY_KG_CO2_PER_KWH in
  let totalMiles := types.inboundDeliveryMiles data + types.outboundShippingMiles data in
  let scope3 := totalMiles * TRANSPORT_KG_CO2_PER_MILE in
  let total := scope1 + scope2 + scope3 in
  {| types.scope1 := scope1; types.scope2 := scope2; types.scope3 := scope3;
     types.total := total |}.

(** [x || 1] on a number: 1 when [x] is 0. *)
Definition orOne (x : R) : R := if Req_dec_T x 0 then 1 else x.

Definition calculateIntensity (data : types.MonthlyData) : types.IntensityMetrics :=
  let emissions := calculateEmissions data in
  let employees := orOne (types.employeeCount data) in
  let sqft := orOne (types.squareFeet data) in
  {| types.electricityPerEmployee := types.electricityKwh data / employees;
     types.electricityPerSqFt := types.electricityKwh data / sqft;
     types.waterPerEmployee := types.waterGallons data / employees;
     types.waterPerSqFt := types.waterGallons data / sqft;
     types.carbonPerEmployee := types.total emissions / employees;
     types.carbonPerSqFt := types.total emissions / sqft |}.

(** The body of the loop of [aggregateMonthlyData]. *)
Definition addMonth (aggregated month : types.MonthlyData) : types.MonthlyData :=
  {| types.id := types.id aggregated;
     types.year := types.year aggregated;
     types.month := types.month aggregated;
     types.electricityKwh := types.electricityKwh aggregated + types.electricityKwh month;
     types.naturalGasTherm := types.naturalGasTherm aggregated + types.naturalGasTherm month;
     types.waterGallons := types.waterGallons aggregated + types.waterGallons month;
     types.inboundDeliveryMiles :=
       types.inboundDeliveryMiles aggregated + types.inboundDeliveryMiles month;
     types.outboundShippingMiles :=
       types.outboundShippingMiles aggregated + types.outboundShippingMiles month;
     types.employeeCount := Rmax (types.employeeCount aggregated) (types.employeeCount month);
     types.squareFeet := types.squareFeet aggregated;
     types.notes := types.notes aggregated;
     types.createdAt := types.createdAt aggregated;
     types.updatedAt := types.updatedAt aggregated |}.

Definition withEmployeeCount (d : types.MonthlyData) (n : R) : types.MonthlyData :=
  {| types.id := types.id d; types.year := types.year d; types.month := types.month d;
     types.electricityKwh := types.electricityKwh d;
     types.naturalGasTherm := types.naturalGasTherm d;
     types.waterGallons := types.waterGallons d;
     types.inboundDeliveryMiles := types.inboundDeliveryMiles d;
     types.outboundShippingMiles := types.outboundShippingMiles d;
     types.employeeCount := n;
     types.squareFeet := types.squareFeet d;
     types.notes := types.notes d;
     types.createdAt := types.createdAt d;
     types.updatedAt := types.updatedAt d |}.

(** [aggregateMonthlyData]; [created] and [updated] are the two
    [new Date().toISOString()] it reads. *)
Definition aggregateMonthlyData (created updated : string)
    (months : list types.MonthlyData) : option types.MonthlyData :=
  match months with
  | [] => None
  | first :: _ =>
      let aggregated :=
        {| types.id := "aggregated";
           types.year := types.year first;
           types.month := types.month first;
           types.electricityKwh := 0;
           types.naturalGasTherm := 0;
           types.waterGallons := 0;
           types.inboundDeliveryMiles := 0;
           types.outboundShippingMiles := 0;
           types.employeeCount := 0;
           types.squareFeet := types.squareFeet first;
           types.notes := None;
           types.createdAt := created;
           types.updatedAt := updated |} in
      let summed := fold_left addMonth months aggregated in
      Some (withEmployeeCount summed
              (Math.round
                 (fold_left (fun sum m => sum + types.employeeCount m) months 0
                  / INR (List.length months))))
  end.

Definition getQuarter (month : R) : R := Math.ceil (month / 3).

Definition getQuarterMonths (quarter : R) : list R :=
  let startMonth := (quarter - 1) * 3 + 1 in
  [startMonth; startMonth + 1; startMonth + 2].

(** [a === b] on numbers, and [xs.includes(x)]. *)
Definition sameNumber (a b : R) : bool := if Req_dec_T a b then true else false.

Definition includes (xs : list R) (x : R) : bool := existsb (fun y => sameNumber y x) xs.

Definition filterByQuarter (data : list types.MonthlyData) (year quarter : R)
  : list types.MonthlyData :=
  let quarterMonths := getQuarterMonths quarter in
  filter (fun d => sameNumber (types.year d) year
                   && includes quarterMonths (types.month d)) data.

Definition filterYearToDate (data : list types.MonthlyData) (year throughMonth : R)
  : list types.MonthlyData :=
  filter (fun d => sameNumber (types.year d) year
                   && (if Rle_dec (types.month d) throughMonth then true else false))
         data.

Definition percentChange (current previous : R) : R :=
  if Req_dec_T previous 0 then 0
  else ((current - previous) / previous) * 100.

Definition kgToMetricTons (kg : R) : R := kg / 1000.

(** [getCurrentQuarter], for the [getFullYear()] and [getMonth()] of the
    current date. *)
Definition getCurrentQuarter (fullYear monthIndex : R) : types.QuarterRef :=
  {| types.q_year := fullYear; types.quarter := getQuarter (monthIndex + 1) |}.

Definition getPreviousQuarter (current : types.QuarterRef) : types.QuarterRef :=
  if Req_dec_T (types.quarter current) 1
  then {| types.q_year := types.q_year current - 1; types.quarter := 4 |}
  else {| types.q_year := types.q_year current;
          types.quarter := types.quarter current - 1 |}.

End calculations.

(** ** The cards of [Dashboard] (lines 129-180 of Dashboard.tsx) *)

(** The [change] prop [Dashboard] gives a card: the percent change when
    both quarters have data, [undefined] otherwise. *)
Definition cardChange (current previous : option R) : option R :=
  match current, previous with
  | Some c, Some p => Some (calculations.percentChange c p)
  | _, _ => None
  end.

(** ** [lib/storage.ts] *)

Module storage.

Definition DEFAULT_SETTINGS : types.AppSettings :=
  {| types.facilityName := "Main Facility";
     types.defaultSquareFeet := 10000;
     types.defaultEmployeeCount := 25;
     types.adminPassword := "eco2024" |}.

(** [Partial<AppSettings>], and a settings object as it may come out of
    [JSON.parse]: each key present or not. *)
Record PartialSettings : Type := {
  p_facilityName : option string;
  p_defaultSquareFeet : option R;
  p_defaultEmployeeCount : option R;
  p_adminPassword : option string
}.

(** [{ ...base, ...over }] on settings. *)
Definition spreadSettings (base : types.AppSettings) (over : PartialSettings)
  : types.AppSettings :=
  {| types.facilityName :=
       match p_facilityName over with Some v => v | None => types.facilityName base end;
     types.defaultSquareFeet :=
       match p_defaultSquareFeet over with
       | Some v => v | None => types.defaultSquareFeet base end;
     types.defaultEmployeeCount :=
       match p_defaultEmployeeCount over with
       | Some v => v | None => types.defaultEmployeeCount base end;
     types.adminPassword :=
       match p_adminPassword over with Some v => v | None => types.adminPassword base end |}.

Definition allOf (s : types.AppSettings) : PartialSettings :=
  {| p_facilityName := Some (types.facilityName s);
     p_defaultSquareFeet := Some (types.defaultSquareFeet s);
     p_defaultEmployeeCount := Some (types.defaultEmployeeCount s);
     p_adminPassword := Some (types.adminPassword s) |}.

Section Storage.

(** The type of objectives, and the text of a number in a template
    string. *)
Variable Objective : Type.
Variable numberToString : R -> string.

(** The module constant [DEFAULT_STATE] as the module is loaded. *)
Definition DEFAULT_STATE : types.AppState Objective :=
  {| types.monthlyData := []; types.objectives := []; types.settings := DEFAULT_SETTINGS |}.

(** What [JSON.parse] makes of the stored text when it is the text of
    an object: each top-level key present or not. *)
Record ParsedState : Type := {
  s_monthlyData : option (list types.MonthlyData);
  s_objectives : option (list Objective);
  s_settings : option PartialSettings
}.

(** The item under [STORAGE_KEY]: none (or the empty string), a text on
    which reading fails, or the text of an object. *)
Inductive StoredItem : Type :=
| Absent
| Unreadable
| Parsed (s : ParsedState).

(** Where the code runs: with a [window] or not, with room in the
    storage or not ([setItem] throws), the stored item, and the current
    content of the object [DEFAULT_STATE], which [getAppState] hands out
    itself and the callers then write to. *)
Record Host : Type := {
  hasWindow : bool;
  storageFull : bool;
  item : StoredItem;
  defaultState : types.AppState Objective
}.

(** A freshly loaded module on a host. *)
Definition loaded (window full : bool) (stored : StoredItem) : Host :=
  {| hasWindow := window; storageFull := full; item := stored;
     defaultState := DEFAULT_STATE |}.

Definition getAppState (h : Host) : types.AppState Objective :=
  if negb (hasWindow h) then defaultState h
  else
    match item h with
    | Absent => defaultState h
    | Unreadable => defaultState h
    | Parsed parsed =>
        {| types.monthlyData :=
             match s_monthlyData parsed with
             | Some v => v | None => types.monthlyData (defaultState h) end;
           types.objectives :=
             match s_objectives parsed with
             | Some v => v | None => types.objectives (defaultState h) end;
           types.settings :=
             match s_settings parsed with
             | Some over => spreadSettings DEFAULT_SETTINGS over
             | None => DEFAULT_SETTINGS
             end |}
    end.

(** What the object [getAppState] returns shares with [DEFAULT_STATE]:
    it is that object itself, or a new object whose [monthlyData] is the
    array of [DEFAULT_STATE], or nothing that is written to here. *)
Inductive Sharing : Type := SameObject | SameArray | NothingShared.

Definition sharing (h : Host) : Sharing :=
  if negb (hasWindow h) then SameObject
  else
    match item h with
    | Absent => SameObject
    | Unreadable => SameObject
    | Parsed parsed =>
        match s_monthlyData parsed with
        | Some _ => NothingShared
        | None => SameArray
        end
    end.

(** [JSON.stringify] of a state, read back: every key present. *)
Definition stringified (state : types.AppState Objective) : StoredItem :=
  Parsed {| s_monthlyData := Some (types.monthlyData state);
            s_objectives := Some (types.objectives state);
            s_settings := Some (allOf (types.settings state)) |}.

Definition saveAppState (h : Host) (state : types.AppState Objective) : Host :=
  if negb (hasWindow h) then h
  else if storageFull h then h
  else {| hasWindow := hasWindow h; storageFull := storageFull h;
          item := stringified state; defaultState := defaultState h |}.

Definition getMonthlyData (h : Host) : list types.MonthlyData :=
  types.monthlyData (getAppState h).

(** The test [d.year === year && d.month === month]. *)
Definition isMonth (year month : R) (d : types.MonthlyData) : bool :=
  calculations.sameNumber (types.year d) year
  && calculations.sameNumber (types.month d) month.

Definition getMonthData (h : Host) (year month : R) : option types.MonthlyData :=
  find (isMonth year month) (getMonthlyData h).

(** [xs[i] = v] at the first index where the test holds. *)
Fixpoint replaceFirst (test : types.MonthlyData -> bool) (v : types.MonthlyData)
    (xs : list types.MonthlyData) : list types.MonthlyData :=
  match xs with
  | [] => []
  | x :: rest => if test x then v :: rest else x :: replaceFirst test v rest
  end.

(** The comparator of the sort: newest first. *)
Definition byDateDescending (a b : types.MonthlyData) : R :=
  if Req_dec_T (types.year a) (types.year b)
  then types.month b - types.month a
  else types.year b - types.year a.

(** [xs.sort(compare)], a stable sort: an element goes before the first
    one it does not have to follow. *)
Fixpoint insertSorted (compare : types.MonthlyData -> types.MonthlyData -> R)
    (x : types.MonthlyData) (sorted : list types.MonthlyData) : list types.MonthlyData :=
  match sorted with
  | [] => [x]
  | y :: rest =>
      if Rle_dec (compare x y) 0 then x :: y :: rest
      else y :: insertSorted compare x rest
  end.

Definition sort (compare : types.MonthlyData -> types.MonthlyData -> R)
    (xs : list types.MonthlyData) : list types.MonthlyData :=
  fold_right (insertSorted compare) [] xs.

Definition withMonthlyData (state : types.AppState Objective)
    (data : list types.MonthlyData) : types.AppState Objective :=
  {| types.monthlyData := data; types.objectives := types.objectives state;
     types.settings := types.settings state |}.

Definition withDefault (h : Host) (state : types.AppState Objective) : Host :=
  {| hasWindow := hasWindow h; storageFull := storageFull h; item := item h;
     defaultState := state |}.

(** The entry written over an existing one: [{ ...data, updatedAt }]. *)
Definition updatedEntry (data : types.MonthlyData) (now : string) : types.MonthlyData :=
  {| types.id := types.id data; types.year := types.year data;
     types.month := types.month data;
     types.electricityKwh := types.electricityKwh data;
     types.naturalGasTherm := types.naturalGasTherm data;
     types.waterGallons := types.waterGallons data;
     types.inboundDeliveryMiles := types.inboundDeliveryMiles data;
     types.outboundShippingMiles := types.outboundShippingMiles data;
     types.employeeCount := types.employeeCount data;
     types.squareFeet := types.squareFeet data;
     types.notes := types.notes data;
     types.createdAt := types.createdAt data;
     types.updatedAt := now |}.

(** The entry pushed for a new month:
    [{ ...data, id, createdAt, updatedAt }]. *)
Definition createdEntry (data : types.MonthlyData) (now later : string)
  : types.MonthlyData :=
  {| types.id := (numberToString (types.year data) ++ "-"
                  ++ numberToString (types.month data))%string;
     types.year := types.year data;
     types.month := types.month data;
     types.electricityKwh := types.electricityKwh data;
     types.naturalGasTherm := types.naturalGasTherm data;
     types.waterGallons := types.waterGallons data;
     types.inboundDeliveryMiles := types.inboundDeliveryMiles data;
     types.outboundShippingMiles := types.outboundShippingMiles data;
     types.employeeCount := types.employeeCount data;
     types.squareFeet := types.squareFeet data;
     types.notes := types.notes data;
     types.createdAt := now;
     types.updatedAt := later |}.

(** The content of the array after [saveMonthlyData] has written to it
    and sorted it; [now] and [later] are the dates it reads, in order. *)
Definition upsertMonth (entries : list types.MonthlyData) (data : types.MonthlyData)
    (now later : string) : list types.MonthlyData :=
  let same := isMonth (types.year data) (types.month data) in
  sort byDateDescending
    (if existsb same entries
     then replaceFirst same (updatedEntry data now) entries
     else entries ++ [createdEntry data now later]).

(** [saveMonthlyData] writes into the array of the state in place, so
    into [DEFAULT_STATE] when the array is shared with it. *)
Definition saveMonthlyData (h : Host) (data : types.MonthlyData) (now later : string)
  : Host :=
  let state := getAppState h in
  let entries := upsertMonth (types.monthlyData state) data now later in
  let h' :=
    match sharing h with
    | SameObject | SameArray => withDefault h (withMonthlyData (defaultState h) entries)
    | NothingShared => h
    end in
  saveAppState h' (withMonthlyData state entries).

(** [deleteMonthlyData] assigns a new array to [state.monthlyData], so
    to [DEFAULT_STATE] when the state is that object. *)
Definition deleteMonthlyData (h : Host) (year month : R) : Host :=
  let state := getAppState h in
  let entries := filter (fun d => negb (isMonth year month d)) (types.monthlyData state) in
  let h' :=
    match sharing h with
    | SameObject => withDefault h (withMonthlyData (defaultState h) entries)
    | SameArray | NothingShared => h
    end in
  saveAppState h' (withMonthlyData state entries).

Definition getSettings (h : Host) : types.AppSettings :=
  types.settings (getAppState h).

Definition updateSettings (h : Host) (over : PartialSettings) : Host :=
  let state := getAppState h in
  let state' :=
    {| types.monthlyData := types.monthlyData state;
       types.objectives := types.objectives state;
       types.settings := spreadSettings (types.settings state) over |} in
  let h' :=
    match sharing h with
    | SameObject => withDefault h state'
    | SameArray | NothingShared => h
    end in
  saveAppState h' state'.

Definition verifyPassword (h : Host) (password : string) : bool :=
  String.eqb password (types.adminPassword (getSettings h)).

(** A host whose writes go through. *)
Definition writable (h : Host) : Prop := hasWindow h = true /\ storageFull h = false.

(** Newest first: no entry is followed, anywhere later in the list, by
    one of a later month. *)
Definition newestFirst (entries : list types.MonthlyData) : Prop :=
  StronglySorted (fun a b => byDateDescending a b <= 0) entries.

End Storage.

End storage.

(** The type of objectives is read off the host. *)
Arguments storage.DEFAULT_STATE {Objective}.
Arguments storage.Absent {Objective}.
Arguments storage.Unreadable {Objective}.
Arguments storage.Parsed {Objective} s.
Arguments storage.Build_Host {Objective}.
Arguments storage.hasWindow {Objective} h.
Arguments storage.storageFull {Objective} h.
Arguments storage.item {Objective} h.
Arguments storage.defaultState {Objective} h.
Arguments storage.loaded {Objective} window full stored.
Arguments storage.getAppState {Objective} h.
Arguments storage.sharing {Objective} h.
Arguments storage.stringified {Objective} state.
Arguments storage.saveAppState {Objective} h state.
Arguments storage.getMonthlyData {Objective} h.
Arguments storage.getMonthData {Objective} h (year month)%_R.
Arguments storage.withMonthlyData {Objective} state data.
Arguments storage.withDefault {Objective} h state.
Arguments storage.saveMonthlyData {Objective} numberToString h data (now later)%_string.
Arguments storage.deleteMonthlyData {Objective} h (year month)%_R.
Arguments storage.getSettings {Objective} h.
Arguments storage.updateSettings {Objective} h over.
Arguments storage.verifyPassword {Objective} h password%_string.
Arguments storage.writable {Objective} h.
Arguments storage.s_monthlyData {Objective} p.
Arguments storage.s_objectives {Objective} p.
Arguments storage.s_settings {Objective} p.
Arguments storage.Build_ParsedState {Objective}.

(** The sum of a quantity over a list. *)
Definition sumOf {A : Type} (f : A -> R) (xs : list A) : R :=
  fold_right (fun x acc => f x + acc) 0 xs.

(** ** Theorems *)

(** The coordinates of [versor.cartesian], spelled out. *)
Lemma cartesian_components (lng lat : R) :
  versor.cartesian (lng, lat) =
  (cos (lat * PI / 180) * cos (lng * PI / 180),
   cos (lat * PI / 180) * sin (lng * PI / 180),
   sin (lat * PI / 180)).
Proof. reflexivity. Qed.

(** The sum of the squared components of [versor.cartesian] is 1. *)
Lemma cartesian_is_unit (e : pair2) : is_unit (versor.cartesian e).
Proof.
  destruct e as [lng lat].
  rewrite cartesian_components. unfold is_unit, norm2_3.
  set (l := lng * PI / 180). set (p := lat * PI / 180).
  assert (Hl : sin l * sin l + cos l * cos l = 1)
    by (generalize (sin2_cos2 l); unfold Rsqr; lra).
  assert (Hp : sin p * sin p + cos p * cos p = 1)
    by (generalize (sin2_cos2 p); unfold Rsqr; lra).
  replace (cos p * cos l * (cos p * cos l)
           + cos p * sin l * (cos p * sin l) + sin p * sin p)
    with (cos p * cos p * (sin l * sin l + cos l * cos l) + sin p * sin p)
    by ring.
  rewrite Hl. lra.
Qed.

(** C10: for every longitude/latitude pair in degrees,
    [versor.cartesian] returns a vector of Euclidean norm exactly 1:
    cos²(lat)·cos²(lon) + cos²(lat)·sin²(lon) + sin²(lat) = 1, with no
    normalisation step. *)
Theorem cartesian_unit_norm (lng lat : R) :
  cos (lat * PI / 180) ^ 2 * cos (lng * PI / 180) ^ 2
  + cos (lat * PI / 180) ^ 2 * sin (lng * PI / 180) ^ 2
  + sin (lat * PI / 180) ^ 2 = 1
  /\ norm2_3 (versor.cartesian (lng, lat)) = 1
  /\ magnitude3 (versor.cartesian (lng, lat)) = 1.
Proof.
  pose proof (cartesian_is_unit (lng, lat)) as Hu.
  unfold is_unit in Hu.
  split; [| split; [exact Hu |]].
  - rewrite cartesian_components in Hu. simpl in Hu. rewrite <- Hu. ring.
  - unfold magnitude3. rewrite Hu. apply sqrt_1.
Qed.

(** *** Particle progress *)

Lemma updateParticle_cases (p : R) :
  (1 < p + 0.003 /\ updateParticle p = 0) \/
  (p + 0.003 <= 1 /\ updateParticle p = p + 0.003).
Proof.
  unfold updateParticle.
  destruct (Rlt_dec 1 (p + 0.003)) as [Hgt | Hle].
  - left. split; [exact Hgt | reflexivity].
  - right. split; [lra | reflexivity].
Qed.

Lemma updateParticle_closed (p : R) :
  0 <= p <= 1 -> 0 <= updateParticle p <= 1.
Proof.
  intros Hp.
  destruct (updateParticle_cases p) as [[_ ->] | [Hle ->]]; lra.
Qed.

Lemma ticks_closed (n : nat) :
  forall p, 0 <= p <= 1 -> 0 <= ticks n p <= 1.
Proof.
  induction n as [| n IH]; intros p Hp; simpl.
  - exact Hp.
  - apply IH, updateParticle_closed, Hp.
Qed.

(** A progress of 0.997 becomes exactly 1 at the next tick: the wrap
    test [newP > 1] is strict. *)
Lemma updateParticle_reaches_one : updateParticle 0.997 = 1.
Proof.
  destruct (updateParticle_cases 0.997) as [[Hgt _] | [_ ->]]; lra.
Qed.

(** The same in binary64: [0.997 + 0.003] rounds to [1], which is kept. *)
Lemma updateParticle_binary64_reaches_one :
  Binary64.updateParticle 0x1.fe76c8b439581p-1%float = 1%float.
Proof. vm_compute. reflexivity. Qed.

(** Counterexample to C7 as stated: progress 0.997 lies in [0,1), and
    one tick later the progress is 1, outside [0,1). *)
Lemma particle_leaves_half_open_interval :
  ~ (forall (p : R) (n : nat), 0 <= p < 1 -> 0 <= ticks n p < 1).
Proof.
  intros H.
  specialize (H 0.997 1%nat).
  simpl in H. rewrite updateParticle_reaches_one in H. lra.
Qed.

(** C7 (amended): for every particle whose progress starts in [0,1),
    after any number of render ticks (each adding 0.003 and resetting to
    0 when the sum exceeds 1) the progress is in the closed interval
    [0,1]. *)
Theorem particle_progress_bounded (p : R) (n : nat) :
  0 <= p < 1 -> 0 <= ticks n p <= 1.
Proof.
  intros Hp. apply ticks_closed. lra.
Qed.

Lemma particle_progress_bounded_witness :
  0 <= ticks 400 0.5 <= 1.
Proof.
  apply (particle_progress_bounded 0.5 400). lra.
Defined.

(** *** Arc sampling *)

(** Unfolding one turn of the sampling loop. *)
Lemma arcLoop_step (Point : Type) (interpolate : PrimFloat.float -> Point)
    (k : nat) (t : PrimFloat.float) (acc : list Point) :
  Binary64.arcLoop Point interpolate (S k) t acc =
  if PrimFloat.leb t 1
  then Binary64.arcLoop Point interpolate k (PrimFloat.add t Binary64.arcStep)
         (acc ++ [interpolate t])
  else Some acc.
Proof. reflexivity. Qed.

(** The parameters the loop runs at, given enough fuel: fifty of them,
    the last one 0.98000000000000054; the fifty-first value of [t],
    1.0000000000000004, fails [t <= 1]. *)
Lemma arcTimes_value (k : nat) :
  Binary64.arcTimes (51 + k) =
  Some (0 :: 0.02 :: 0.040000000000000001 :: 0.059999999999999998
     :: 0.080000000000000002 :: 0.10000000000000001 :: 0.12000000000000001
     :: 0.14000000000000001 :: 0.16 :: 0.17999999999999999
     :: 0.19999999999999998 :: 0.21999999999999997 :: 0.23999999999999996
     :: 0.25999999999999995 :: 0.27999999999999997 :: 0.29999999999999999
     :: 0.32000000000000001 :: 0.34000000000000002 :: 0.36000000000000004
     :: 0.38000000000000006 :: 0.40000000000000008 :: 0.4200000000000001
     :: 0.44000000000000011 :: 0.46000000000000013 :: 0.48000000000000015
     :: 0.50000000000000011 :: 0.52000000000000013 :: 0.54000000000000015
     :: 0.56000000000000016 :: 0.58000000000000018 :: 0.6000000000000002
     :: 0.62000000000000022 :: 0.64000000000000024 :: 0.66000000000000025
     :: 0.68000000000000027 :: 0.70000000000000029 :: 0.72000000000000031
     :: 0.74000000000000032 :: 0.76000000000000034 :: 0.78000000000000036
     :: 0.80000000000000038 :: 0.8200000000000004 :: 0.84000000000000041
     :: 0.86000000000000043 :: 0.88000000000000045 :: 0.90000000000000047
     :: 0.92000000000000048 :: 0.9400000000000005 :: 0.96000000000000052
     :: 0.98000000000000054 :: nil)%float.
Proof.
  unfold Binary64.arcTimes, Binary64.arcPoints.
  change (51 + k)%nat with (S (50 + k)).
  vm_compute. reflexivity.
Qed.

(** C6: the sampling loop of [render] on any route, run in binary64
    with enough fuel, stops after fifty points: the first is
    [interpolate(0)], the last is [interpolate(0.98000000000000054)], and
    the parameter 1 (the target) is never sampled. *)
Theorem arc_sampling_stops_short (Point : Type)
    (interpolate : PrimFloat.float -> Point) (k : nat) :
  exists pts,
    Binary64.arcPoints Point interpolate (51 + k) = Some pts
    /\ List.length pts = 50%nat
    /\ hd_error pts = Some (interpolate 0%float)
    /\ last pts (interpolate 0%float) = interpolate 0.98000000000000054%float
    /\ PrimFloat.ltb 0.98000000000000054 1 = true.
Proof.
  unfold Binary64.arcTimes, Binary64.arcPoints.
  change (51 + k)%nat with (S (50 + k)).
  eexists. split; [vm_compute; reflexivity |].
  repeat split; vm_compute; reflexivity.
Qed.

(** *** Algebra of [versor] *)

(** Equality of tuples, component by component. *)
Ltac tuple_eq :=
  repeat match goal with
         | |- (_, _) = (_, _) => apply (f_equal2 pair)
         end.

(** Lagrange's identity: |a × b|² = |a|²|b|² − (a·b)². *)
Lemma lagrange_identity (a b : triple) :
  norm2_3 (versor.cross a b) =
  norm2_3 a * norm2_3 b - versor.dot a b * versor.dot a b.
Proof.
  destruct a as [[a0 a1] a2], b as [[b0 b1] b2]. simpl. ring.
Qed.

(** The dot product of unit vectors lies in [-1, 1]. *)
Lemma dot_unit_bounds (a b : triple) :
  is_unit a -> is_unit b -> -1 <= versor.dot a b <= 1.
Proof.
  intros Ha Hb.
  pose proof (lagrange_identity a b) as HL.
  rewrite Ha, Hb in HL.
  assert (0 <= norm2_3 (versor.cross a b)).
  { destruct (versor.cross a b) as [[c0 c1] c2]. simpl. nra. }
  nra.
Qed.

Lemma branchTerm_ge_1 (d : R) : 1 <= branchTerm d.
Proof. unfold branchTerm. destruct (Rlt_dec d 0); lra. Qed.

Lemma sqrt_double (s : R) : 0 <= s -> sqrt (2 * s) = 2 * sqrt (s / 2).
Proof.
  intros Hs.
  replace (2 * s) with ((2 * 2) * (s / 2)) by field.
  rewrite sqrt_mult by lra.
  rewrite sqrt_square by lra. reflexivity.
Qed.

(** The quaternion [versor.rotation] returns, in terms of its scalar
    part [w = sqrt (s / 2)]: the vector part is the cross product over
    [2 w]. *)
Lemma rotation_shape (v_0 v_1 : triple) :
  let s := branchTerm (versor.dot v_0 v_1) in
  let w := sqrt (s / 2) in
  let '(c0, c1, c2) := versor.cross v_0 v_1 in
  versor.rotation v_0 v_1 = (w, c0 / (2 * w), c1 / (2 * w), c2 / (2 * w))
  /\ 2 * (w * w) = s /\ 0 < w.
Proof.
  intros s w.
  pose proof (branchTerm_ge_1 (versor.dot v_0 v_1)) as Hs. fold s in Hs.
  assert (Hw2 : w * w = s / 2) by (apply sqrt_sqrt; lra).
  assert (Hw : 0 < w) by (apply sqrt_lt_R0; lra).
  unfold versor.rotation.
  destruct (versor.cross v_0 v_1) as [[c0 c1] c2].
  split; [| split; [lra | exact Hw]].
  subst w s. unfold branchTerm in *.
  destruct (Rlt_dec (versor.dot v_0 v_1) 0);
    rewrite sqrt_double by lra; reflexivity.
Qed.

(** The quaternion of [versor.rotation] has norm 1 on unit vectors. *)
Lemma rotation_norm (v_0 v_1 : triple) :
  is_unit v_0 -> is_unit v_1 -> norm2_4 (versor.rotation v_0 v_1) = 1.
Proof.
  intros H0 H1.
  pose proof (rotation_shape v_0 v_1) as Hshape.
  pose proof (lagrange_identity v_0 v_1) as HL.
  rewrite H0, H1 in HL.
  cbv zeta in Hshape.
  set (d := versor.dot v_0 v_1) in *.
  set (s := branchTerm d) in *.
  set (w := sqrt (s / 2)) in *.
  destruct (versor.cross v_0 v_1) as [[c0 c1] c2].
  destruct Hshape as (-> & Hw2 & Hw).
  simpl in HL |- *.
  assert (Hc : c0 * c0 + c1 * c1 + c2 * c2 = s * (2 - s)).
  { unfold s, branchTerm. destruct (Rlt_dec d 0); lra. }
  assert (Hs : 1 <= s) by apply branchTerm_ge_1.
  clearbody w s d.
  replace (w * w + c0 / (2 * w) * (c0 / (2 * w)) + c1 / (2 * w) * (c1 / (2 * w))
           + c2 / (2 * w) * (c2 / (2 * w)))
    with (w * w + (c0 * c0 + c1 * c1 + c2 * c2) / (2 * (2 * (w * w))))
    by (field; lra).
  rewrite Hc, <- Hw2. field. lra.
Qed.

(** Norms multiply under [versor.multiply]. *)
Lemma multiply_norm (a b : quad) :
  norm2_4 (versor.multiply a b) = norm2_4 a * norm2_4 b.
Proof.
  destruct a as [[[a0 a1] a2] a3], b as [[[b0 b1] b2] b3]. simpl. ring.
Qed.

(** [[1, 0, 0, 0]] is a left identity of [versor.multiply]. *)
Lemma multiply_identity_l (q : quad) : versor.multiply (1, 0, 0, 0) q = q.
Proof.
  destruct q as [[[b0 b1] b2] b3]. simpl.
  tuple_eq; ring.
Qed.

(** Rotating by a quaternion [(w, u)]:
    [(w² − |u|²) v + 2 (u·v) u + 2 w (u × v)]. *)
Lemma rotateVector_formula (w x y z a0 a1 a2 : R) :
  rotateVector (w, x, y, z) (a0, a1, a2) =
  let n := w * w - (x * x + y * y + z * z) in
  let k := 2 * (x * a0 + y * a1 + z * a2) in
  (n * a0 + k * x + 2 * w * (y * a2 - z * a1),
   n * a1 + k * y + 2 * w * (z * a0 - x * a2),
   n * a2 + k * z + 2 * w * (x * a1 - y * a0)).
Proof.
  unfold rotateVector, conjugate. cbn. tuple_eq; ring.
Qed.

(** Where [versor.rotation v0 v1] sends [v0], for unit vectors: to
    [v1 + (|d| - d) v0], with [d] the dot product. *)
Lemma rotation_image (v_0 v_1 : triple) :
  is_unit v_0 -> is_unit v_1 ->
  let d := versor.dot v_0 v_1 in
  let e := if Rlt_dec d 0 then - (2 * d) else 0 in
  let '(a0, a1, a2) := v_0 in
  let '(b0, b1, b2) := v_1 in
  rotateVector (versor.rotation v_0 v_1) v_0 =
  (b0 + e * a0, b1 + e * a1, b2 + e * a2).
Proof.
  intros H0 H1.
  pose proof (rotation_shape v_0 v_1) as Hshape.
  pose proof (lagrange_identity v_0 v_1) as HL.
  rewrite H0, H1 in HL.
  cbv zeta in Hshape |- *.
  destruct v_0 as [[a0 a1] a2], v_1 as [[b0 b1] b2].
  unfold is_unit in H0, H1. simpl in H0, H1.
  simpl versor.cross in *. simpl versor.dot in *.
  set (d := a0 * b0 + a1 * b1 + a2 * b2) in *.
  set (s := branchTerm d) in *.
  set (w := sqrt (s / 2)) in *.
  destruct Hshape as (-> & Hw2 & Hw).
  simpl in HL.
  rewrite rotateVector_formula. cbv zeta.
  set (c0 := a1 * b2 - a2 * b1) in *.
  set (c1 := a2 * b0 - a0 * b2) in *.
  set (c2 := a0 * b1 - a1 * b0) in *.
  assert (Hs : 1 <= s) by apply branchTerm_ge_1.
  assert (Horth : c0 * a0 + c1 * a1 + c2 * a2 = 0) by (unfold c0, c1, c2; ring).
  assert (Hcoef : s / 2 - (1 - d * d) / (2 * s)
                  = d + (if Rlt_dec d 0 then - (2 * d) else 0)).
  { unfold s, branchTerm. destruct (Rlt_dec d 0); field; lra. }
  assert (Hx0 : c1 * a2 - c2 * a1 = b0 - d * a0)
    by (unfold c0, c1, c2, d; nsatz).
  assert (Hx1 : c2 * a0 - c0 * a2 = b1 - d * a1)
    by (unfold c0, c1, c2, d; nsatz).
  assert (Hx2 : c0 * a1 - c1 * a0 = b2 - d * a2)
    by (unfold c0, c1, c2, d; nsatz).
  set (e := if Rlt_dec d 0 then - (2 * d) else 0) in *.
  clearbody e w s c0 c1 c2 d.
  assert (Hn : w * w - (c0 / (2 * w) * (c0 / (2 * w)) + c1 / (2 * w) * (c1 / (2 * w))
                        + c2 / (2 * w) * (c2 / (2 * w)))
               = s / 2 - (1 - d * d) / (2 * s)).
  { replace (c0 / (2 * w) * (c0 / (2 * w)) + c1 / (2 * w) * (c1 / (2 * w))
             + c2 / (2 * w) * (c2 / (2 * w)))
      with ((c0 * c0 + c1 * c1 + c2 * c2) / (2 * (2 * (w * w)))) by (field; lra).
    rewrite HL, <- Hw2. field. lra. }
  assert (Hk : c0 / (2 * w) * a0 + c1 / (2 * w) * a1 + c2 / (2 * w) * a2 = 0).
  { replace (c0 / (2 * w) * a0 + c1 / (2 * w) * a1 + c2 / (2 * w) * a2)
      with ((c0 * a0 + c1 * a1 + c2 * a2) / (2 * w)) by (field; lra).
    rewrite Horth. field. lra. }
  rewrite Hn, Hk, Hcoef.
  tuple_eq.
  - replace (2 * w * (c1 / (2 * w) * a2 - c2 / (2 * w) * a1))
      with (c1 * a2 - c2 * a1) by (field; lra).
    rewrite Hx0. ring.
  - replace (2 * w * (c2 / (2 * w) * a0 - c0 / (2 * w) * a2))
      with (c2 * a0 - c0 * a2) by (field; lra).
    rewrite Hx1. ring.
  - replace (2 * w * (c0 / (2 * w) * a1 - c1 / (2 * w) * a0))
      with (c0 * a1 - c1 * a0) by (field; lra).
    rewrite Hx2. ring.
Qed.

(** For unit vectors with a non-negative dot product the quaternion
    sends the anchor to the target. *)
Lemma rotation_maps_when_dot_nonneg (v_0 v_1 : triple) :
  is_unit v_0 -> is_unit v_1 -> 0 <= versor.dot v_0 v_1 ->
  rotateVector (versor.rotation v_0 v_1) v_0 = v_1.
Proof.
  intros H0 H1 Hd.
  pose proof (rotation_image v_0 v_1 H0 H1) as Him. cbv zeta in Him.
  destruct v_0 as [[a0 a1] a2], v_1 as [[b0 b1] b2].
  rewrite Him.
  destruct (Rlt_dec _ 0) as [Hlt | _]; [lra |].
  tuple_eq; ring.
Qed.

(** For unit vectors with a negative dot product it never does. *)
Lemma rotation_misses_when_dot_negative (v_0 v_1 : triple) :
  is_unit v_0 -> is_unit v_1 -> versor.dot v_0 v_1 < 0 ->
  rotateVector (versor.rotation v_0 v_1) v_0 <> v_1.
Proof.
  intros H0 H1 Hd.
  pose proof (rotation_image v_0 v_1 H0 H1) as Him. cbv zeta in Him.
  destruct v_0 as [[a0 a1] a2], v_1 as [[b0 b1] b2].
  rewrite Him.
  destruct (Rlt_dec _ 0) as [_ | Hge]; [| contradiction].
  set (d := versor.dot (a0, a1, a2) (b0, b1, b2)) in *.
  unfold is_unit in H0. simpl in H0.
  intros Heq. injection Heq as E0 E1 E2.
  assert (Z0 : a0 = 0) by nra.
  assert (Z1 : a1 = 0) by nra.
  assert (Z2 : a2 = 0) by nra.
  subst. lra.
Qed.

(** The quaternion at v0 = (1, 0, 0), v1 = (-3/5, 4/5, 0): a rotation
    about the z axis with w² = 4/5. *)
Lemma rotation_obtuse_value :
  exists w, 0 < w /\ w * w = 4 / 5
    /\ versor.rotation (1, 0, 0) (-3/5, 4/5, 0)
       = (w, 0 / (2 * w), 0 / (2 * w), (4 / 5) / (2 * w)).
Proof.
  pose proof (rotation_shape (1, 0, 0) (-3/5, 4/5, 0)) as Hshape.
  cbv zeta in Hshape.
  assert (D : versor.dot (1, 0, 0) (-3/5, 4/5, 0) = -3/5) by (simpl; lra).
  assert (C : versor.cross (1, 0, 0) (-3/5, 4/5, 0) = (0, 0, 4 / 5))
    by (simpl; tuple_eq; lra).
  rewrite C, D in Hshape.
  assert (S : branchTerm (-3/5) = 8 / 5).
  { unfold branchTerm. destruct (Rlt_dec (-3/5) 0); lra. }
  rewrite S in Hshape. destruct Hshape as (Hrot & Hw2 & Hw).
  exists (sqrt (8 / 5 / 2)). split; [exact Hw |]. split; [lra | exact Hrot].
Qed.

(** C2: at the unit vectors v0 = (1, 0, 0) and v1 = (-3/5, 4/5, 0),
    whose dot product is -3/5, the quaternion [versor.rotation] returns
    sends v0 to (3/5, 4/5, 0), not to v1; its inverse sends v0 to
    (3/5, -4/5, 0), not to v1 either. *)
Theorem rotation_obtuse_misses_target :
  is_unit (1, 0, 0) /\ is_unit (-3/5, 4/5, 0)
  /\ versor.dot (1, 0, 0) (-3/5, 4/5, 0) = -3/5
  /\ rotateVector (versor.rotation (1, 0, 0) (-3/5, 4/5, 0)) (1, 0, 0)
     = (3/5, 4/5, 0)
  /\ rotateVector (versor.rotation (1, 0, 0) (-3/5, 4/5, 0)) (1, 0, 0)
     <> (-3/5, 4/5, 0)
  /\ rotateVector (conjugate (versor.rotation (1, 0, 0) (-3/5, 4/5, 0))) (1, 0, 0)
     = (3/5, -4/5, 0).
Proof.
  assert (U0 : is_unit (1, 0, 0)) by (unfold is_unit; simpl; lra).
  assert (U1 : is_unit (-3/5, 4/5, 0)) by (unfold is_unit; simpl; lra).
  assert (D : versor.dot (1, 0, 0) (-3/5, 4/5, 0) = -3/5) by (simpl; lra).
  assert (Him : rotateVector (versor.rotation (1, 0, 0) (-3/5, 4/5, 0)) (1, 0, 0)
                = (3/5, 4/5, 0)).
  { pose proof (rotation_image _ _ U0 U1) as Him. cbv zeta in Him.
    rewrite Him, D.
    destruct (Rlt_dec (-3/5) 0) as [_ | Hge]; [| lra].
    tuple_eq; lra. }
  split; [exact U0 |]. split; [exact U1 |]. split; [exact D |].
  split; [exact Him |]. split.
  - rewrite Him. intros Heq. injection Heq as E. lra.
  - destruct rotation_obtuse_value as (w & Hw & Hw2 & ->).
    unfold conjugate. rewrite rotateVector_formula. cbv zeta.
    assert (Hz : (4 / 5) / (2 * w) * ((4 / 5) / (2 * w)) = 1 / 5).
    { replace ((4 / 5) / (2 * w) * ((4 / 5) / (2 * w)))
        with ((4 / 25) / (w * w)) by (field; lra).
      rewrite Hw2. lra. }
    tuple_eq.
    + replace (- (0 / (2 * w))) with 0 by (field; lra).
      replace (- ((4 / 5) / (2 * w)) * - ((4 / 5) / (2 * w)))
        with ((4 / 5) / (2 * w) * ((4 / 5) / (2 * w))) by ring.
      rewrite Hz, Hw2. lra.
    + replace (- (0 / (2 * w))) with 0 by (field; lra).
      replace (2 * w * (- ((4 / 5) / (2 * w)) * 1 - 0 * 0)) with (- (4 / 5))
        by (field; lra).
      lra.
    + replace (- (0 / (2 * w))) with 0 by (field; lra). lra.
Qed.

(** *** No operation of the construction leaves its domain *)

Lemma rotationDivisor_bound (v_0 v_1 : triple) :
  sqrt 2 <= rotationDivisor v_0 v_1.
Proof.
  unfold rotationDivisor.
  destruct (Rlt_dec (versor.dot v_0 v_1) 0); apply sqrt_le_1_alt; lra.
Qed.

Lemma sqrt2_pos : 0 < sqrt 2.
Proof. apply sqrt_lt_R0. lra. Qed.

Lemma rotation_by_divisor (v_0 v_1 : triple) :
  let '(c0, c1, c2) := versor.cross v_0 v_1 in
  let k := rotationDivisor v_0 v_1 in
  versor.rotation v_0 v_1 =
  (sqrt (branchTerm (versor.dot v_0 v_1) / 2), c0 / k, c1 / k, c2 / k).
Proof.
  unfold versor.rotation, rotationDivisor, branchTerm.
  destruct (versor.cross v_0 v_1) as [[c0 c1] c2].
  destruct (Rlt_dec (versor.dot v_0 v_1) 0); reflexivity.
Qed.

Lemma quadChecked_defined (a b c0 c1 c2 : R) :
  0 <= a -> 0 < b ->
  quadChecked (JsMath.sqrt_checked a) c0 c1 c2 (JsMath.sqrt_checked b)
  = Some (sqrt a, c0 / sqrt b, c1 / sqrt b, c2 / sqrt b).
Proof.
  intros Ha Hb.
  assert (Hk : 0 < sqrt b) by (apply sqrt_lt_R0; exact Hb).
  unfold quadChecked, JsMath.sqrt_checked.
  destruct (Rlt_dec a 0) as [Hneg | _]; [lra |].
  destruct (Rlt_dec b 0) as [Hneg | _]; [lra |].
  unfold JsMath.div_checked.
  destruct (Req_dec_T (sqrt b) 0) as [Hz | _]; [lra |].
  reflexivity.
Qed.

Lemma rotationChecked_defined (v_0 v_1 : triple) :
  rotationChecked v_0 v_1 = Some (versor.rotation v_0 v_1).
Proof.
  unfold rotationChecked, versor.rotation.
  destruct (versor.cross v_0 v_1) as [[c0 c1] c2].
  cbv zeta.
  destruct (Rlt_dec (versor.dot v_0 v_1) 0) as [Hd | Hd];
    apply quadChecked_defined; lra.
Qed.

Lemma clamp_in_range (x : R) : -1 <= Rmax (-1) (Rmin 1 x) <= 1.
Proof.
  split.
  - apply Rmax_l.
  - apply Rmax_lub; [lra | apply Rmin_l].
Qed.

Lemma toEulerChecked_defined (q : quad) :
  toEulerChecked q = Some (versor.toEuler q).
Proof.
  destruct q as [[[q_0 q_1] q_2] q_3].
  unfold toEulerChecked, versor.toEuler, JsMath.asin_checked.
  pose proof (clamp_in_range (2 * (q_0 * q_2 - q_3 * q_1))) as [Hlo Hhi].
  destruct (Rlt_dec _ (-1)) as [Hbad | _]; [lra |].
  destruct (Rlt_dec 1 _) as [Hbad | _]; [lra |].
  reflexivity.
Qed.

(** C8: for every pair of vectors (unit or not, nearly antipodal or
    not) the divisor of the branch [versor.rotation] takes is at least
    sqrt 2, and neither the construction nor the conversion by
    [versor.toEuler] takes a square root of a negative number, divides
    by zero or takes an arcsine outside [-1, 1]: no component is NaN. *)
Theorem rotation_no_nan (v_0 v_1 : triple) :
  sqrt 2 <= rotationDivisor v_0 v_1
  /\ 0 < sqrt 2
  /\ (let '(c0, c1, c2) := versor.cross v_0 v_1 in
      versor.rotation v_0 v_1 =
      (sqrt (branchTerm (versor.dot v_0 v_1) / 2),
       c0 / rotationDivisor v_0 v_1,
       c1 / rotationDivisor v_0 v_1,
       c2 / rotationDivisor v_0 v_1))
  /\ 1 <= branchTerm (versor.dot v_0 v_1)
  /\ rotationChecked v_0 v_1 = Some (versor.rotation v_0 v_1)
  /\ toEulerChecked (versor.rotation v_0 v_1)
     = Some (versor.toEuler (versor.rotation v_0 v_1)).
Proof.
  split; [apply rotationDivisor_bound |].
  split; [apply sqrt2_pos |].
  split; [exact (rotation_by_divisor v_0 v_1) |].
  split; [apply branchTerm_ge_1 |].
  split; [apply rotationChecked_defined | apply toEulerChecked_defined].
Qed.

(** *** The drag controller *)

Section Controller.

Variable geoProject : Projection -> pair2 -> option pair2.
Variable geoInvert : Projection -> pair2 -> option pair2.

#[local] Abbreviation step' := (step geoProject geoInvert).
#[local] Abbreviation run' := (run geoProject geoInvert).

Lemma runEffect_inv (dims : Dimensions) (r : triple) :
  effectInv (runEffect dims r).
Proof.
  repeat split; simpl; intros ? H; discriminate H.
Qed.

Lemma handleMouseDown_inv (c : DragEffect) (rect : DOMRect) (event : MouseEvent) :
  effectInv c -> effectInv (handleMouseDown geoInvert c rect event).
Proof.
  intros Hc. unfold handleMouseDown.
  destruct (geoInvert _ _) as [pos |]; [| exact Hc].
  repeat split; simpl; intros ? H; injection H as <-.
  - apply cartesian_is_unit.
  - reflexivity.
  - reflexivity.
Qed.

Lemma handleMouseUp_inv (c : DragEffect) : effectInv (handleMouseUp c).
Proof.
  repeat split; simpl; intros ? H; discriminate H.
Qed.

Lemma step_inv (st : Component) (ev : Event) :
  effectInv (effect st) -> effectInv (effect (step' st ev)).
Proof.
  intros Hst.
  destruct ev; simpl.
  - apply handleMouseDown_inv, Hst.
  - exact Hst.
  - apply handleMouseUp_inv.
  - apply handleMouseUp_inv.
  - exact Hst.
  - apply runEffect_inv.
Qed.

Lemma run_inv (evs : list Event) :
  forall st, effectInv (effect st) -> effectInv (effect (run' st evs)).
Proof.
  induction evs as [| ev evs IH]; intros st Hst; simpl.
  - exact Hst.
  - apply IH, step_inv, Hst.
Qed.

Lemma mount_inv (f : FacilityLocation) (evs : list Event) :
  effectInv (effect (run' (mount f) evs)).
Proof.
  apply run_inv. simpl. apply runEffect_inv.
Qed.

(** The quaternions of one move, spelled out. *)
Lemma moveQuaternions_some (c : DragEffect) (rect : DOMRect) (event : MouseEvent)
    (r_0 : triple) (q1 q : quad) :
  moveQuaternions geoInvert c rect event = Some (r_0, q1, q) ->
  exists v_0 q_0 pos,
    v0 c = Some v_0 /\ r0 c = Some r_0 /\ q0 c = Some q_0
    /\ geoInvert (mkProjection (e_dimensions c) r_0)
         (clientX event - left rect, clientY event - top rect) = Some pos
    /\ q1 = versor.rotation v_0 (versor.cartesian pos)
    /\ q = versor.multiply q_0 q1.
Proof.
  unfold moveQuaternions.
  destruct (v0 c) as [v_0 |]; [| discriminate].
  destruct (r0 c) as [r |]; [| discriminate].
  destruct (q0 c) as [q_0 |]; [| discriminate].
  destruct (geoInvert _ _) as [pos |] eqn:Hinv; [| discriminate].
  intros H. injection H as <- <- <-.
  exists v_0, q_0, pos. repeat split. exact Hinv.
Qed.

Lemma magnitude_of_unit (q : quad) (eps : R) :
  norm2_4 q = 1 -> 0 <= eps -> 1 - eps <= magnitude4 q <= 1 + eps.
Proof.
  intros Hq Heps. unfold magnitude4. rewrite Hq, sqrt_1. lra.
Qed.

(** C3: along every sequence of pointer events, of any length, each
    quaternion a drag-move builds -- [q1] from [versor.rotation] on the
    anchor and target vectors, and the product [q] of [versor.multiply]
    that [versor.toEuler] receives -- has magnitude 1 in exact
    arithmetic, hence within [1 - eps, 1 + eps] for every eps >= 0. *)
Theorem drag_quaternions_unit (f : FacilityLocation) (evs : list Event)
    (rect : DOMRect) (event : MouseEvent) (r_0 : triple) (q1 q : quad) :
  moveQuaternions geoInvert (effect (run' (mount f) evs)) rect event
    = Some (r_0, q1, q) ->
  handleMouseMove geoInvert (effect (run' (mount f) evs)) rect event
    = Some (addEuler r_0 (versor.toEuler q))
  /\ norm2_4 q1 = 1 /\ norm2_4 q = 1
  /\ forall eps, 0 <= eps ->
       1 - eps <= magnitude4 q1 <= 1 + eps
       /\ 1 - eps <= magnitude4 q <= 1 + eps.
Proof.
  intros Hmove.
  pose proof (mount_inv f evs) as (Hv & Hq & _).
  destruct (moveQuaternions_some _ _ _ _ _ _ Hmove)
    as (v_0 & q_0 & pos & Ev & _ & Eq & _ & -> & ->).
  assert (N1 : norm2_4 (versor.rotation v_0 (versor.cartesian pos)) = 1).
  { apply rotation_norm; [apply Hv, Ev | apply cartesian_is_unit]. }
  assert (N : norm2_4 (versor.multiply q_0
                         (versor.rotation v_0 (versor.cartesian pos))) = 1).
  { rewrite multiply_norm, N1, (Hq _ Eq). simpl. lra. }
  split.
  { unfold handleMouseMove. rewrite Hmove. reflexivity. }
  split; [exact N1 |]. split; [exact N |].
  intros eps Heps. split; apply magnitude_of_unit; assumption.
Qed.


End Controller.

(** Stand-ins for the external projection, for running the handlers on
    concrete events: an inversion that always answers the point (0, 0),
    and a projection that draws a marker at its (lng, lat). *)
Lemma drag_quaternions_unit_witness :
  let origin := fun (_ : Projection) (_ : pair2) => Some (0, 0) in
  let flat := fun (_ : Projection) (p : pair2) => Some p in
  let rect := {| left := 0; top := 0 |} in
  let event := {| clientX := 300; clientY := 250; pageX := 300; pageY := 250 |} in
  let q1 := versor.rotation (versor.cartesian (0, 0)) (versor.cartesian (0, 0)) in
  norm2_4 q1 = 1 /\ norm2_4 (versor.multiply (1, 0, 0, 0) q1) = 1.
Proof.
  intros origin flat rect event q1.
  pose proof (drag_quaternions_unit flat origin defaultFacilityLocation
                [MouseDown rect event] rect event
                (initialRotation defaultFacilityLocation)
                q1 (versor.multiply (1, 0, 0, 0) q1) eq_refl) as H.
  split; [exact (proj1 (proj2 H)) | exact (proj1 (proj2 (proj2 H)))].
Defined.

(** *** Hover hit-testing *)

Lemma sum_squares_nonneg (a b : R) : 0 <= a ^ 2 + b ^ 2.
Proof. apply Rplus_le_le_0_compat; apply pow2_ge_0. Qed.

Lemma pixelDistance_compare (p q : pair2) (x y : R) :
  (fst p - x) ^ 2 + (snd p - y) ^ 2 < (fst q - x) ^ 2 + (snd q - y) ^ 2 ->
  pixelDistance p x y < pixelDistance q x y.
Proof.
  intros H. unfold pixelDistance.
  apply sqrt_lt_1_alt. split; [apply sum_squares_nonneg | exact H].
Qed.

Lemma sqrt_144 : sqrt 144 = 12.
Proof.
  replace 144 with (12 * 12) by lra. apply sqrt_square. lra.
Qed.

Lemma pixelDistance_below (p : pair2) (x y : R) :
  (fst p - x) ^ 2 + (snd p - y) ^ 2 < 144 -> pixelDistance p x y < 12.
Proof.
  intros H. unfold pixelDistance. rewrite <- sqrt_144.
  apply sqrt_lt_1_alt. split; [apply sum_squares_nonneg | exact H].
Qed.

Lemma pixelDistance_not_below (p : pair2) (x y : R) :
  144 <= (fst p - x) ^ 2 + (snd p - y) ^ 2 -> 12 <= pixelDistance p x y.
Proof.
  intros H. unfold pixelDistance. rewrite <- sqrt_144.
  apply sqrt_le_1_alt. exact H.
Qed.

Section Hover.

Variable geoProject : Projection -> pair2 -> option pair2.
Variable proj : Projection.
Variables x y : R.

#[local] Abbreviation reach := (withinReach geoProject proj x y).
#[local] Abbreviation search := (hoverSearch geoProject proj x y).
#[local] Abbreviation nearest := (nearestMarker geoProject proj x y).

(** One turn of the loop either stops at the supplier or passes it. *)
Lemma hoverSearch_cons (supplier : SupplyChainNode) (rest : list SupplyChainNode) :
  (reach supplier /\ search (supplier :: rest) = Some supplier)
  \/ (~ reach supplier /\ search (supplier :: rest) = search rest).
Proof.
  simpl.
  destruct (geoProject proj (lng supplier, lat supplier)) as [pos |] eqn:Hp.
  - destruct (Rlt_dec (pixelDistance pos x y) 12) as [Hlt | Hge].
    + left. split; [exists pos; split; assumption | reflexivity].
    + right. split; [| reflexivity].
      intros (pos' & Hp' & Hlt). rewrite Hp in Hp'. injection Hp' as <-.
      contradiction.
  - right. split; [| reflexivity].
    intros (pos' & Hp' & _). rewrite Hp in Hp'. discriminate.
Qed.

Lemma hoverSearch_found (suppliers : list SupplyChainNode) (s : SupplyChainNode) :
  search suppliers = Some s ->
  exists pre post,
    suppliers = pre ++ s :: post /\ reach s /\ Forall (fun s' => ~ reach s') pre.
Proof.
  induction suppliers as [| a rest IH]; intros H.
  - discriminate H.
  - destruct (hoverSearch_cons a rest) as [[Ha Hs] | [Ha Hs]]; rewrite Hs in H.
    + injection H as <-. exists [], rest. repeat split; [exact Ha | constructor].
    + destruct (IH H) as (pre & post & -> & Hr & Hpre).
      exists (a :: pre), post. repeat split; [exact Hr | constructor; assumption].
Qed.

Lemma hoverSearch_first (pre post : list SupplyChainNode) (s : SupplyChainNode) :
  Forall (fun s' => ~ reach s') pre -> reach s ->
  search (pre ++ s :: post) = Some s.
Proof.
  intros Hpre Hs.
  induction Hpre as [| a pre Ha _ IH]; simpl app.
  - destruct (hoverSearch_cons s post) as [[_ E] | [Hn _]]; [exact E | contradiction].
  - destruct (hoverSearch_cons a (pre ++ s :: post)) as [[Hr _] | [_ E]];
      [contradiction | rewrite E; exact IH].
Qed.

Lemma hoverSearch_none (suppliers : list SupplyChainNode) :
  search suppliers = None <-> Forall (fun s => ~ reach s) suppliers.
Proof.
  induction suppliers as [| a rest IH].
  - split; [constructor | reflexivity].
  - destruct (hoverSearch_cons a rest) as [[Ha Hs] | [Ha Hs]]; rewrite Hs.
    + split; [discriminate |].
      intros HF. inversion HF; subst. contradiction.
    + rewrite IH. split.
      * intros HF. constructor; assumption.
      * intros HF. inversion HF; assumption.
Qed.

(** The rule of the specification picks a marker no farther than any
    other one that projects. *)
Lemma nearestMarker_min (suppliers : list SupplyChainNode)
    (s : SupplyChainNode) (d : R) :
  nearest suppliers = Some (s, d) ->
  (exists pos, geoProject proj (lng s, lat s) = Some pos /\ d = pixelDistance pos x y)
  /\ In s suppliers
  /\ forall s' pos', In s' suppliers ->
       geoProject proj (lng s', lat s') = Some pos' -> d <= pixelDistance pos' x y.
Proof.
  revert s d.
  induction suppliers as [| a rest IH]; intros s d H; [discriminate H |].
  simpl in H.
  destruct (geoProject proj (lng a, lat a)) as [pos |] eqn:Hp.
  - destruct (nearest rest) as [[best db] |] eqn:Hrest.
    + destruct (IH best db eq_refl) as (Hb & Hin & Hmin).
      destruct (Rle_dec (pixelDistance pos x y) db) as [Hle | Hgt];
        injection H as <- <-.
      * split; [exists pos; split; [exact Hp | reflexivity] |].
        split; [left; reflexivity |].
        intros s' pos' [<- | Hin'] Hp'.
        -- rewrite Hp in Hp'. injection Hp' as <-. lra.
        -- specialize (Hmin s' pos' Hin' Hp'). lra.
      * split; [exact Hb |]. split; [right; exact Hin |].
        intros s' pos' [<- | Hin'] Hp'.
        -- rewrite Hp in Hp'. injection Hp' as <-. lra.
        -- exact (Hmin s' pos' Hin' Hp').
    + injection H as <- <-.
      split; [exists pos; split; [exact Hp | reflexivity] |].
      split; [left; reflexivity |].
      intros s' pos' [<- | Hin'] Hp'.
      * rewrite Hp in Hp'. injection Hp' as <-. lra.
      * exfalso. clear IH.
        induction rest as [| b rest' IHr]; [destruct Hin' |].
        simpl in Hrest.
        destruct (geoProject proj (lng b, lat b)) as [pb |] eqn:Hpb.
        -- destruct (nearest rest') as [[? ?] |];
             [destruct (Rle_dec _ _) |]; discriminate Hrest.
        -- destruct Hin' as [<- | Hin''].
           ++ rewrite Hpb in Hp'. discriminate.
           ++ exact (IHr Hrest Hin'').
  - destruct (IH s d H) as (Hb & Hin & Hmin).
    split; [exact Hb |]. split; [right; exact Hin |].
    intros s' pos' [<- | Hin'] Hp'.
    + rewrite Hp in Hp'. discriminate.
    + exact (Hmin s' pos' Hin' Hp').
Qed.

(** It picks some marker as soon as one projects. *)
Lemma nearestMarker_some (suppliers : list SupplyChainNode)
    (s : SupplyChainNode) (pos : pair2) :
  In s suppliers -> geoProject proj (lng s, lat s) = Some pos ->
  exists best d, nearest suppliers = Some (best, d).
Proof.
  induction suppliers as [| a rest IH]; intros Hin Hp; [destruct Hin |].
  simpl.
  destruct (geoProject proj (lng a, lat a)) as [pa |] eqn:Hpa.
  - destruct (nearest rest) as [[best db] |].
    + destruct (Rle_dec (pixelDistance pa x y) db); eauto.
    + eauto.
  - destruct Hin as [<- | Hin].
    + rewrite Hpa in Hp. discriminate.
    + exact (IH Hin Hp).
Qed.

(** A marker strictly nearer than every other one is the one the rule
    of the specification picks. *)
Lemma nearestMarker_strict_min (suppliers : list SupplyChainNode)
    (s : SupplyChainNode) (pos : pair2) :
  In s suppliers -> geoProject proj (lng s, lat s) = Some pos ->
  (forall s' pos', In s' suppliers ->
     geoProject proj (lng s', lat s') = Some pos' ->
     s' = s \/ pixelDistance pos x y < pixelDistance pos' x y) ->
  nearest suppliers = Some (s, pixelDistance pos x y).
Proof.
  intros Hin Hp Hstrict.
  destruct (nearestMarker_some suppliers s pos Hin Hp) as (best & d & Hbest).
  destruct (nearestMarker_min suppliers best d Hbest)
    as ((pb & Hpb & Hd) & Hinb & Hmin).
  rewrite Hbest.
  destruct (Hstrict best pb Hinb Hpb) as [-> | Hlt].
  - rewrite Hp in Hpb. injection Hpb as <-. rewrite Hd. reflexivity.
  - specialize (Hmin s pos Hin Hp). lra.
Qed.

End Hover.

(** What [handleHover] emits is what its search loop found. *)
Lemma handleHoverOn_emitted (geoProject : Projection -> pair2 -> option pair2)
    (suppliers : list SupplyChainNode) (c : DragEffect) (rect : DOMRect)
    (event : MouseEvent) :
  option_map content (fst (handleHoverOn geoProject suppliers c rect event))
  = hoverSearch geoProject (mkProjection (e_dimensions c) (e_rotation c))
      (clientX event - left rect) (clientY event - top rect) suppliers.
Proof.
  unfold handleHoverOn.
  destruct (hoverSearch _ _ _ _ _); reflexivity.
Qed.

(** C4 (amended): for every pointer position and rotation state,
    [handleHover] emits the first marker, in dataset order, that
    projects and lies strictly closer than 12 pixels to the pointer,
    and emits null exactly when no marker does; a marker at exactly
    12.0 pixels is not within reach; and whenever exactly one marker is
    within reach, that marker is emitted. *)
Theorem hover_emits_first_within_reach
    (geoProject : Projection -> pair2 -> option pair2)
    (suppliers : list SupplyChainNode) (c : DragEffect) (rect : DOMRect)
    (event : MouseEvent) :
  let x := clientX event - left rect in
  let y := clientY event - top rect in
  let proj := mkProjection (e_dimensions c) (e_rotation c) in
  let result := handleHoverOn geoProject suppliers c rect event in
  let emitted := option_map content (fst result) in
  (forall s, emitted = Some s <->
     exists pre post,
       suppliers = pre ++ s :: post
       /\ withinReach geoProject proj x y s
       /\ Forall (fun s' => ~ withinReach geoProject proj x y s') pre)
  /\ (emitted = None <->
      Forall (fun s => ~ withinReach geoProject proj x y s) suppliers)
  /\ (forall s pos, geoProject proj (lng s, lat s) = Some pos ->
        pixelDistance pos x y = 12 -> ~ withinReach geoProject proj x y s)
  /\ (forall s, In s suppliers -> withinReach geoProject proj x y s ->
        (forall s', In s' suppliers -> withinReach geoProject proj x y s' -> s' = s) ->
        emitted = Some s)
  /\ (forall t, fst result = Some t ->
        t_x t = pageX event /\ t_y t = pageY event /\ snd result = pointer).
Proof.
  intros x y proj result emitted.
  assert (E : emitted = hoverSearch geoProject proj x y suppliers)
    by apply handleHoverOn_emitted.
  split; [| split; [| split; [| split]]].
  - intros s. rewrite E. split.
    + apply hoverSearch_found.
    + intros (pre & post & -> & Hs & Hpre). apply hoverSearch_first; assumption.
  - rewrite E. apply hoverSearch_none.
  - intros s pos Hp Hd (pos' & Hp' & Hlt).
    rewrite Hp in Hp'. injection Hp' as <-. lra.
  - intros s Hin Hs Huniq. rewrite E.
    destruct (hoverSearch geoProject proj x y suppliers) as [s' |] eqn:Hsearch.
    + destruct (hoverSearch_found _ _ _ _ _ _ Hsearch) as (pre & post & Hl & Hs' & _).
      f_equal. apply Huniq; [| exact Hs'].
      rewrite Hl. apply in_or_app. right. left. reflexivity.
    + apply hoverSearch_none in Hsearch.
      rewrite Forall_forall in Hsearch. destruct (Hsearch s Hin Hs).
  - intros t Ht. subst result. unfold handleHoverOn in *. fold x y proj in Ht |- *.
    destruct (hoverSearch geoProject proj x y suppliers); [| discriminate Ht].
    injection Ht as <-. repeat split.
Qed.

(** A stand-in projection that draws every marker, at
    (lng + 180, 90 - lat) pixels. *)
Lemma plateCarree_reach (proj : Projection) (x y : R) (s : SupplyChainNode) :
  let flat := fun (_ : Projection) (p : pair2) => Some (fst p + 180, 90 - snd p) in
  withinReach flat proj x y s <->
  pixelDistance (lng s + 180, 90 - lat s) x y < 12.
Proof.
  intros flat. unfold withinReach, flat. simpl. split.
  - intros (pos & Hp & Hlt). injection Hp as <-. exact Hlt.
  - intros Hlt. eexists. split; [reflexivity | exact Hlt].
Qed.

Ltac far_marker :=
  let H := fresh in
  intros H; apply plateCarree_reach in H;
  apply Rlt_not_le in H; apply H;
  apply pixelDistance_not_below; simpl; lra.

Ltac other_marker Hin Hp :=
  simpl in Hin;
  repeat (destruct Hin as [<- | Hin]);
  [ .. | destruct Hin ];
  first [ left; reflexivity
        | right; cbv beta delta [fst snd lng lat] iota in Hp;
          injection Hp as <-; apply pixelDistance_compare; simpl; lra ].

(** Counterexample to C4 as stated, with every marker drawn at
    (lng + 180, 90 - lat).  With the pointer at (184, 40), supplier-2
    (7.8 px away) and supplier-6 (4.4 px away) are both within reach:
    the handler emits supplier-2, the first in the dataset, the nearest
    is supplier-6.  With the pointer at (298.6297, 79.1769), exactly
    12 px to the right of supplier-5 and farther from all others, the
    handler emits null, while the rule with an inclusive threshold
    emits supplier-5. *)
Lemma hover_not_nearest_nor_inclusive :
  let flat := fun (_ : Projection) (p : pair2) => Some (fst p + 180, 90 - snd p) in
  let c := runEffect initialDimensions (0, 0, 0) in
  let proj := mkProjection initialDimensions (0, 0, 0) in
  let rect := {| left := 0; top := 0 |} in
  let between := {| clientX := 184; clientY := 40; pageX := 184; pageY := 40 |} in
  let beside := {| clientX := 298.6297; clientY := 79.1769;
                   pageX := 298.6297; pageY := 79.1769 |} in
  (option_map content (fst (handleHover flat c rect between))
     = nth_error SUPPLY_CHAIN_DATA 1
   /\ hoverNearestWithin flat proj (184 - 0) (40 - 0) SUPPLY_CHAIN_DATA
     = nth_error SUPPLY_CHAIN_DATA 5)
  /\ (fst (handleHover flat c rect beside) = None
      /\ hoverNearestWithin flat proj (298.6297 - 0) (79.1769 - 0) SUPPLY_CHAIN_DATA
         = nth_error SUPPLY_CHAIN_DATA 4).
Proof.
  intros flat c proj rect between beside.
  split; split.
  - unfold handleHover. rewrite handleHoverOn_emitted.
    change (mkProjection (e_dimensions c) (e_rotation c)) with proj.
    change (clientX between - left rect) with (184 - 0).
    change (clientY between - top rect) with (40 - 0).
    destruct SUPPLY_CHAIN_DATA as [| s1 [| s2 rest]] eqn:Hdata;
      try discriminate Hdata.
    injection Hdata as <- <- <-.
    apply (hoverSearch_first flat proj _ _ [_] _ _).
    + constructor; [far_marker | constructor].
    + apply plateCarree_reach. apply pixelDistance_below. simpl. lra.
  - unfold hoverNearestWithin.
    erewrite (nearestMarker_strict_min flat proj _ _ SUPPLY_CHAIN_DATA
                {| id := "supplier-6"; name := "UK Precision Ltd.";
                   country := "United Kingdom"; countryCode := "GBR";
                   lat := 51.5074; lng := -0.1278;
                   material := "Precision Instruments"; annualVolume := "2 tons";
                   transportMode := air; distanceKm := 5900;
                   emissionsKgCO2 := 5900; emissionFactor := 0.5 |}
                (-0.1278 + 180, 90 - 51.5074)).
    + destruct (Rle_dec _ 12) as [_ | Hgt]; [reflexivity |].
      exfalso. apply Hgt. apply Rlt_le.
      apply pixelDistance_below. simpl. lra.
    + simpl. tauto.
    + reflexivity.
    + intros s' pos' Hin Hp. other_marker Hin Hp.
  - unfold handleHover, handleHoverOn.
    change (mkProjection (e_dimensions c) (e_rotation c)) with proj.
    change (clientX beside - left rect) with (298.6297 - 0).
    change (clientY beside - top rect) with (79.1769 - 0).
    assert (Hnone : hoverSearch flat proj (298.6297 - 0) (79.1769 - 0)
                      SUPPLY_CHAIN_DATA = None).
    { apply hoverSearch_none. repeat constructor; far_marker. }
    rewrite Hnone. reflexivity.
  - unfold hoverNearestWithin.
    erewrite (nearestMarker_strict_min flat proj _ _ SUPPLY_CHAIN_DATA
                {| id := "supplier-5"; name := "Vietnam Textiles Ltd.";
                   country := "Vietnam"; countryCode := "VNM";
                   lat := 10.8231; lng := 106.6297;
                   material := "Technical Fabrics"; annualVolume := "8 tons";
                   transportMode := ship; distanceKm := 14200;
                   emissionsKgCO2 := 454; emissionFactor := 0.004 |}
                (106.6297 + 180, 90 - 10.8231)).
    + destruct (Rle_dec _ 12) as [_ | Hgt]; [reflexivity |].
      exfalso. apply Hgt. apply Req_le. unfold pixelDistance. simpl.
      transitivity (sqrt 144); [f_equal; lra | apply sqrt_144].
    + simpl. tauto.
    + reflexivity.
    + intros s' pos' Hin Hp. other_marker Hin Hp.
Qed.

(** *** The orthographic projection *)

Lemma sin2_cos2' (a : R) : sin a * sin a + cos a * cos a = 1.
Proof. generalize (sin2_cos2 a). unfold Rsqr. lra. Qed.

Lemma yaw_undo (a : R) (v : triple) :
  Orthographic.yaw (- a) (Orthographic.yaw a v) = v.
Proof.
  destruct v as [[x y] z]. unfold Orthographic.yaw.
  rewrite cos_neg, sin_neg. pose proof (sin2_cos2' a) as H.
  tuple_eq; nsatz.
Qed.

Lemma pitch_undo (a : R) (v : triple) :
  Orthographic.pitch (- a) (Orthographic.pitch a v) = v.
Proof.
  destruct v as [[x y] z]. unfold Orthographic.pitch.
  rewrite cos_neg, sin_neg. pose proof (sin2_cos2' a) as H.
  tuple_eq; nsatz.
Qed.

Lemma roll_undo (a : R) (v : triple) :
  Orthographic.roll (- a) (Orthographic.roll a v) = v.
Proof.
  destruct v as [[x y] z]. unfold Orthographic.roll.
  rewrite cos_neg, sin_neg. pose proof (sin2_cos2' a) as H.
  tuple_eq; nsatz.
Qed.

Lemma unrotate3_rotate3 (r v : triple) :
  Orthographic.unrotate3 r (Orthographic.rotate3 r v) = v.
Proof.
  destruct r as [[lambda phi] gamma].
  unfold Orthographic.unrotate3, Orthographic.rotate3.
  rewrite roll_undo, pitch_undo, yaw_undo. reflexivity.
Qed.

Lemma yaw_norm (a : R) (v : triple) : norm2_3 (Orthographic.yaw a v) = norm2_3 v.
Proof.
  destruct v as [[x y] z]. simpl. pose proof (sin2_cos2' a) as H. nsatz.
Qed.

Lemma pitch_norm (a : R) (v : triple) : norm2_3 (Orthographic.pitch a v) = norm2_3 v.
Proof.
  destruct v as [[x y] z]. simpl. pose proof (sin2_cos2' a) as H. nsatz.
Qed.

Lemma roll_norm (a : R) (v : triple) : norm2_3 (Orthographic.roll a v) = norm2_3 v.
Proof.
  destruct v as [[x y] z]. simpl. pose proof (sin2_cos2' a) as H. nsatz.
Qed.

Lemma rotate3_unit (r : triple) (e : pair2) :
  is_unit (Orthographic.rotate3 r (versor.cartesian e)).
Proof.
  destruct r as [[lambda phi] gamma].
  unfold is_unit, Orthographic.rotate3.
  rewrite roll_norm, pitch_norm, yaw_norm.
  apply cartesian_is_unit.
Qed.

Lemma radians_opp (a : R) : Orthographic.radians (- a) = - Orthographic.radians a.
Proof. unfold Orthographic.radians. field. Qed.

Lemma radians_0 : Orthographic.radians 0 = 0.
Proof. unfold Orthographic.radians. field. Qed.

(** Under the rotation [[-lng, -lat, 0]] the point (lng, lat) faces the
    viewer. *)
Lemma rotate3_centres (lng lat : R) :
  Orthographic.rotate3 (- lng, - lat, 0) (versor.cartesian (lng, lat)) = (1, 0, 0).
Proof.
  rewrite cartesian_components.
  unfold Orthographic.rotate3, Orthographic.roll, Orthographic.pitch, Orthographic.yaw.
  rewrite !radians_opp, radians_0, !cos_neg, !sin_neg, cos_0, sin_0.
  fold (Orthographic.radians lng). fold (Orthographic.radians lat).
  pose proof (sin2_cos2' (Orthographic.radians lng)) as Hl.
  pose proof (sin2_cos2' (Orthographic.radians lat)) as Hp.
  set (cl := cos (Orthographic.radians lng)) in *.
  set (sl := sin (Orthographic.radians lng)) in *.
  set (cp := cos (Orthographic.radians lat)) in *.
  set (sp := sin (Orthographic.radians lat)) in *.
  clearbody cl sl cp sp.
  tuple_eq; nsatz.
Qed.

(** C9: at mount the rotation state is [-lng, -lat, 0] of the
    facility, and under it the orthographic projection that [render]
    configures (centre [width / 2, height / 2]) sends the facility
    coordinate to the centre of the canvas. *)
Theorem mount_centres_facility (f : FacilityLocation) (dims : Dimensions) :
  rotation (mount f) = (- f_lng f, - f_lat f, 0)
  /\ translate (mkProjection dims (rotation (mount f)))
     = (width dims / 2, height dims / 2)
  /\ Orthographic.project (mkProjection dims (rotation (mount f)))
       (f_lng f, f_lat f)
     = Some (width dims / 2, height dims / 2).
Proof.
  split; [reflexivity |]. split; [reflexivity |].
  unfold Orthographic.project. simpl rotate. unfold initialRotation.
  rewrite rotate3_centres.
  destruct (Rlt_dec 1 0) as [Hneg | _]; [lra |].
  simpl. f_equal. tuple_eq; ring.
Qed.

(** *** [Math.atan2] as the angle of a point of the plane *)

Lemma sin_shift_PI (a : R) : sin (a - PI) = - sin a.
Proof. rewrite sin_minus, cos_PI, sin_PI. ring. Qed.

Lemma cos_shift_PI (a : R) : cos (a - PI) = - cos a.
Proof. rewrite cos_minus, cos_PI, sin_PI. ring. Qed.

(** The length of the hypotenuse, from the slope. *)
Lemma sqrt_slope (a b rho : R) :
  0 < a -> 0 <= rho -> rho * rho = a * a + b * b ->
  sqrt (1 + (b / a)²) = rho / a.
Proof.
  intros Ha Hrho Hsq.
  apply sqrt_lem_1.
  - unfold Rsqr. assert (0 <= b / a * (b / a)) by nra. lra.
  - apply Rle_mult_inv_pos; assumption.
  - unfold Rsqr.
    replace (rho / a * (rho / a)) with ((rho * rho) / (a * a)) by (field; lra).
    rewrite Hsq. field. lra.
Qed.

Lemma hypotenuse_pos (a b : R) : a <> 0 -> 0 < sqrt (a * a + b * b).
Proof.
  intros Ha. apply sqrt_lt_R0.
  assert (0 < a * a) by nra. nra.
Qed.

Lemma hypotenuse_sq (a b : R) :
  sqrt (a * a + b * b) * sqrt (a * a + b * b) = a * a + b * b.
Proof. apply sqrt_sqrt. nra. Qed.

(** Polar form: [atan2 b a] is the angle of the point (a, b). *)
Lemma atan2_polar (a b : R) :
  sqrt (a * a + b * b) * cos (JsMath.atan2 b a) = a
  /\ sqrt (a * a + b * b) * sin (JsMath.atan2 b a) = b.
Proof.
  set (rho := sqrt (a * a + b * b)).
  pose proof (hypotenuse_sq a b) as Hsq. fold rho in Hsq.
  assert (Hrho0 : 0 <= rho) by apply sqrt_pos.
  unfold JsMath.atan2.
  destruct (Rlt_dec 0 a) as [Hpos | Hnpos].
  - assert (Hrho : 0 < rho) by (apply hypotenuse_pos; lra).
    rewrite cos_atan, sin_atan, (sqrt_slope a b rho Hpos Hrho0 Hsq).
    clearbody rho. split; field; lra.
  - destruct (Rlt_dec a 0) as [Hneg | Hnneg].
    + assert (Hrho : 0 < rho) by (apply hypotenuse_pos; lra).
      assert (Hslope : sqrt (1 + (b / a)²) = rho / (- a)).
      { replace ((b / a)²) with (((- b) / (- a))²)
          by (unfold Rsqr; field; lra).
        apply sqrt_slope; [lra | exact Hrho0 | rewrite Hsq; ring]. }
      destruct (Rle_dec 0 b) as [Hb | Hb].
      * rewrite neg_cos, neg_sin, cos_atan, sin_atan, Hslope.
        clearbody rho. split; field; lra.
      * rewrite cos_shift_PI, sin_shift_PI, cos_atan, sin_atan, Hslope.
        clearbody rho. split; field; lra.
    + assert (Ha : a = 0) by lra. subst a.
      assert (Hrho : rho * rho = b * b) by (rewrite Hsq; ring).
      destruct (Rlt_dec 0 b) as [Hb | Hb].
      * rewrite cos_PI2, sin_PI2. split; [ring |]. clearbody rho. nra.
      * destruct (Rlt_dec b 0) as [Hb' | Hb'].
        -- rewrite cos_neg, sin_neg, cos_PI2, sin_PI2.
           split; [ring |]. clearbody rho. nra.
        -- assert (Hb0 : b = 0) by lra. subst b.
           rewrite cos_0, sin_0. split; [clearbody rho; nra | ring].
Qed.

(** Which quarter an angle of (-PI, PI] lies in, from the signs of its
    cosine and sine. *)
Lemma angle_cos_pos (a : R) :
  - PI < a <= PI -> 0 < cos a -> - (PI / 2) < a < PI / 2.
Proof.
  intros Ha Hc. pose proof PI_RGT_0 as Hpi. split.
  - destruct (Rlt_dec (- (PI / 2)) a) as [H | H]; [exact H | exfalso].
    assert (cos (- a) <= 0) by (apply cos_le_0; lra).
    rewrite cos_neg in *. lra.
  - destruct (Rlt_dec a (PI / 2)) as [H | H]; [exact H | exfalso].
    assert (cos a <= 0) by (apply cos_le_0; lra). lra.
Qed.

Lemma angle_cos_neg_sin_nonneg (a : R) :
  - PI < a <= PI -> cos a < 0 -> 0 <= sin a -> PI / 2 < a.
Proof.
  intros Ha Hc Hs. pose proof PI_RGT_0 as Hpi.
  destruct (Rlt_dec (PI / 2) a) as [H | H]; [exact H | exfalso].
  destruct (Rlt_dec a (- (PI / 2))) as [Hlow | Hlow].
  - assert (sin a < 0) by (apply sin_lt_0_var; lra). lra.
  - assert (0 <= cos a) by (apply cos_ge_0; lra). lra.
Qed.

Lemma angle_cos_neg_sin_neg (a : R) :
  - PI < a <= PI -> cos a < 0 -> sin a < 0 -> a < - (PI / 2).
Proof.
  intros Ha Hc Hs. pose proof PI_RGT_0 as Hpi.
  destruct (Rlt_dec a (- (PI / 2))) as [H | H]; [exact H | exfalso].
  destruct (Rle_dec a (PI / 2)) as [Hup | Hup].
  - assert (0 <= cos a) by (apply cos_ge_0; lra). lra.
  - assert (0 <= sin a) by (apply sin_ge_0; lra). lra.
Qed.

Lemma angle_cos_zero (a : R) :
  - PI < a <= PI -> cos a = 0 ->
  (0 < sin a /\ a = PI / 2) \/ (sin a < 0 /\ a = - (PI / 2)).
Proof.
  intros Ha Hc. pose proof PI_RGT_0 as Hpi.
  pose proof (sin2_cos2' a) as H1. rewrite Hc in H1.
  destruct (Rle_dec 0 a) as [Hpos | Hneg].
  - left.
    assert (a = PI / 2).
    { apply cos_inj; [lra | lra | rewrite cos_PI2; exact Hc]. }
    subst a. rewrite sin_PI2. split; [lra | reflexivity].
  - right.
    assert (- a = PI / 2).
    { apply cos_inj; [lra | lra | rewrite cos_neg, cos_PI2; exact Hc]. }
    assert (Ea : a = - (PI / 2)) by lra.
    rewrite Ea, sin_neg, sin_PI2. split; [lra | reflexivity].
Qed.

(** [atan2] recovers an angle of (-PI, PI] from a point at that angle. *)
Lemma atan2_angle (r a : R) :
  0 < r -> - PI < a <= PI -> JsMath.atan2 (r * sin a) (r * cos a) = a.
Proof.
  intros Hr Ha. pose proof PI_RGT_0 as Hpi.
  unfold JsMath.atan2.
  destruct (Rlt_dec 0 (r * cos a)) as [Hpos | Hnpos].
  - assert (Hc : 0 < cos a) by nra.
    replace (r * sin a / (r * cos a)) with (tan a) by (unfold tan; field; lra).
    apply atan_tan, angle_cos_pos; assumption.
  - destruct (Rlt_dec (r * cos a) 0) as [Hneg | Hnneg].
    + assert (Hc : cos a < 0) by nra.
      destruct (Rle_dec 0 (r * sin a)) as [Hs | Hs].
      * assert (Hs' : 0 <= sin a) by nra.
        pose proof (angle_cos_neg_sin_nonneg a Ha Hc Hs') as Hq.
        replace (r * sin a / (r * cos a)) with (tan (a - PI)).
        2:{ unfold tan. rewrite sin_shift_PI, cos_shift_PI. field. lra. }
        rewrite atan_tan by lra. ring.
      * assert (Hs' : sin a < 0) by nra.
        pose proof (angle_cos_neg_sin_neg a Ha Hc Hs') as Hq.
        replace (r * sin a / (r * cos a)) with (tan (a + PI)).
        2:{ unfold tan. rewrite neg_sin, neg_cos. field. lra. }
        rewrite atan_tan by lra. ring.
    + assert (Hc : cos a = 0) by nra.
      destruct (angle_cos_zero a Ha Hc) as [[Hs ->] | [Hs ->]].
      * destruct (Rlt_dec 0 (r * sin (PI / 2))) as [_ | Hbad]; [reflexivity |].
        exfalso. apply Hbad. nra.
      * destruct (Rlt_dec 0 (r * sin (- (PI / 2)))) as [Hbad | _]; [nra |].
        destruct (Rlt_dec (r * sin (- (PI / 2))) 0) as [_ | Hbad]; [reflexivity |].
        exfalso. apply Hbad. nra.
Qed.

(** *** Round trip through the projection *)

Lemma radians_degrees (a : R) : Orthographic.degrees a * PI / 180 = a.
Proof. unfold Orthographic.degrees. field. apply PI_neq0. Qed.

Lemma degrees_radians (a : R) : Orthographic.degrees (a * PI / 180) = a.
Proof. unfold Orthographic.degrees. field. apply PI_neq0. Qed.

Lemma unit_component_bound (x y z : R) :
  is_unit (x, y, z) -> (-1 <= x <= 1) /\ (-1 <= y <= 1) /\ (-1 <= z <= 1).
Proof. unfold is_unit. simpl. intros H. repeat split; nra. Qed.

(** Longitude and latitude of a unit vector name that vector. *)
Lemma geoOf_point (v : triple) :
  is_unit v -> versor.cartesian (Orthographic.geoOf v) = v.
Proof.
  destruct v as [[x y] z]. intros Hu.
  destruct (unit_component_bound x y z Hu) as (_ & _ & Hz).
  unfold is_unit in Hu. simpl in Hu.
  unfold Orthographic.geoOf. rewrite cartesian_components, !radians_degrees.
  rewrite cos_asin, sin_asin by exact Hz.
  replace (1 - z²) with (x * x + y * y) by (unfold Rsqr; lra).
  destruct (atan2_polar x y) as [Hx Hy].
  rewrite Hx, Hy. reflexivity.
Qed.

(** Away from the poles, with the longitude in (-180, 180], they are
    the coordinates the vector was built from. *)
Lemma geoOf_cartesian (lng lat : R) :
  -180 < lng <= 180 -> -90 < lat < 90 ->
  Orthographic.geoOf (versor.cartesian (lng, lat)) = (lng, lat).
Proof.
  intros Hlng Hlat. pose proof PI_RGT_0 as Hpi.
  rewrite cartesian_components. unfold Orthographic.geoOf.
  assert (Hp : - (PI / 2) < lat * PI / 180 < PI / 2).
  { split.
    - replace (- (PI / 2)) with ((-90) * PI / 180) by field. nra.
    - replace (PI / 2) with (90 * PI / 180) by field. nra. }
  assert (Hl : - PI < lng * PI / 180 <= PI).
  { split.
    - replace (- PI) with ((-180) * PI / 180) by field. nra.
    - replace PI with (180 * PI / 180) at 2 by field. nra. }
  assert (Hc : 0 < cos (lat * PI / 180)) by (apply cos_gt_0; lra).
  rewrite atan2_angle by assumption.
  rewrite asin_sin by lra.
  rewrite !degrees_radians. reflexivity.
Qed.

Lemma depth_bounds (proj : Projection) (p : pair2) :
  -1 <= Orthographic.depth proj p <= 1.
Proof.
  unfold Orthographic.depth.
  pose proof (rotate3_unit (rotate proj) p) as Hu.
  destruct (Orthographic.rotate3 (rotate proj) (versor.cartesian p)) as [[x y] z].
  apply (unit_component_bound x y z Hu).
Qed.

Lemma degrees_lt_90 (a : R) : Orthographic.degrees a < 90 <-> a < PI / 2.
Proof.
  pose proof PI_RGT_0 as Hpi. unfold Orthographic.degrees.
  split; intros H.
  - apply Rmult_lt_reg_r with (180 / PI).
    + apply Rdiv_lt_0_compat; lra.
    + replace (a * (180 / PI)) with (a * 180 / PI) by (field; lra).
      replace (PI / 2 * (180 / PI)) with 90 by (field; lra). exact H.
  - replace (a * 180 / PI) with (a * (180 / PI)) by (field; lra).
    replace 90 with (PI / 2 * (180 / PI)) by (field; lra).
    apply Rmult_lt_compat_r; [apply Rdiv_lt_0_compat; lra | exact H].
Qed.

Lemma degrees_gt_90 (a : R) : 90 < Orthographic.degrees a <-> PI / 2 < a.
Proof.
  pose proof PI_RGT_0 as Hpi. unfold Orthographic.degrees.
  split; intros H.
  - apply Rmult_lt_reg_r with (180 / PI).
    + apply Rdiv_lt_0_compat; lra.
    + replace (a * (180 / PI)) with (a * 180 / PI) by (field; lra).
      replace (PI / 2 * (180 / PI)) with 90 by (field; lra). exact H.
  - replace (a * 180 / PI) with (a * (180 / PI)) by (field; lra).
    replace 90 with (PI / 2 * (180 / PI)) by (field; lra).
    apply Rmult_lt_compat_r; [apply Rdiv_lt_0_compat; lra | exact H].
Qed.

(** Less than 90 degrees from the centre of the view means a positive
    depth, more than 90 degrees a negative one. *)
Lemma near_side_depth (proj : Projection) (p : pair2) :
  Orthographic.angularDistance proj p < 90 -> 0 < Orthographic.depth proj p.
Proof.
  unfold Orthographic.angularDistance. rewrite degrees_lt_90. intros H.
  pose proof (depth_bounds proj p) as Hd.
  pose proof (acos_bound (Orthographic.depth proj p)) as Hb.
  pose proof PI_RGT_0 as Hpi.
  destruct (Rlt_dec 0 (Orthographic.depth proj p)) as [Hpos | Hneg]; [exact Hpos |].
  exfalso.
  assert (PI / 2 <= acos (Orthographic.depth proj p)).
  { apply cos_decr_0; try lra. rewrite cos_acos by exact Hd. rewrite cos_PI2. lra. }
  lra.
Qed.

Lemma far_side_depth (proj : Projection) (p : pair2) :
  90 < Orthographic.angularDistance proj p -> Orthographic.depth proj p < 0.
Proof.
  unfold Orthographic.angularDistance. rewrite degrees_gt_90. intros H.
  pose proof (depth_bounds proj p) as Hd.
  pose proof (acos_bound (Orthographic.depth proj p)) as Hb.
  pose proof PI_RGT_0 as Hpi.
  destruct (Rlt_dec (Orthographic.depth proj p) 0) as [Hneg | Hpos]; [exact Hneg |].
  exfalso.
  assert (acos (Orthographic.depth proj p) <= PI / 2).
  { apply cos_decr_0; try lra. rewrite cos_acos by exact Hd. rewrite cos_PI2. lra. }
  lra.
Qed.

(** Inverting the screen point of a vector of the front hemisphere
    gives the vector back. *)
Lemma invert_of_projected (proj : Projection) (x y z : R) :
  0 < scale proj -> is_unit (x, y, z) -> 0 <= x ->
  Orthographic.invert proj
    (fst (translate proj) + scale proj * y, snd (translate proj) - scale proj * z)
  = Some (Orthographic.geoOf (Orthographic.unrotate3 (rotate proj) (x, y, z))).
Proof.
  intros Hk Hu Hx.
  unfold is_unit in Hu. simpl in Hu.
  unfold Orthographic.invert. cbn [fst snd].
  set (k := scale proj) in *.
  replace (fst (translate proj) + k * y - fst (translate proj)) with (k * y) by ring.
  replace (snd (translate proj) - k * z - snd (translate proj)) with (- (k * z)) by ring.
  destruct (Rlt_dec k (sqrt (k * y * (k * y) + - (k * z) * - (k * z)))) as [Hout | _].
  - exfalso.
    assert (Hle : sqrt (k * y * (k * y) + - (k * z) * - (k * z)) <= sqrt (k * k)).
    { apply sqrt_le_1_alt. clearbody k. nra. }
    rewrite sqrt_square in Hle by lra. lra.
  - replace (k * y / k) with y by (field; lra).
    replace (- - (k * z) / k) with z by (field; lra).
    replace (1 - (y * y + z * z)) with (x * x) by lra.
    rewrite sqrt_square by exact Hx. reflexivity.
Qed.

(** C1: for the orthographic projection of section 4.1 with a positive
    scale, a point less than 90 degrees from the centre of the view is
    projected to a screen point whose inversion is the same point of
    the globe -- with the same coordinates when its longitude is in
    (-180, 180] and it is not a pole -- and a point more than 90
    degrees away is NotVisible; [project] is total. *)
Theorem orthographic_round_trip (proj : Projection) (p : pair2) :
  0 < scale proj ->
  (Orthographic.angularDistance proj p < 90 ->
   exists s p',
     Orthographic.project proj p = Some s
     /\ Orthographic.invert proj s = Some p'
     /\ versor.cartesian p' = versor.cartesian p
     /\ (-180 < fst p <= 180 -> -90 < snd p < 90 -> p' = p))
  /\ (90 < Orthographic.angularDistance proj p ->
      Orthographic.project proj p = None).
Proof.
  intros Hk. split.
  - intros Hnear. apply near_side_depth in Hnear.
    pose proof (rotate3_unit (rotate proj) p) as Hu.
    pose proof (unrotate3_rotate3 (rotate proj) (versor.cartesian p)) as Hback.
    unfold Orthographic.depth in Hnear. unfold Orthographic.project.
    destruct (Orthographic.rotate3 (rotate proj) (versor.cartesian p))
      as [[x y] z] eqn:Hrot.
    destruct (Rlt_dec x 0) as [Hneg | _]; [lra |].
    eexists. eexists. split; [reflexivity |].
    split; [apply invert_of_projected; [exact Hk | exact Hu | lra] |].
    rewrite Hback. split.
    + apply geoOf_point, cartesian_is_unit.
    + destruct p as [lng lat]. simpl. intros Hlng Hlat.
      apply geoOf_cartesian; assumption.
  - intros Hfar. apply far_side_depth in Hfar.
    unfold Orthographic.depth in Hfar. unfold Orthographic.project.
    destruct (Orthographic.rotate3 (rotate proj) (versor.cartesian p)) as [[x y] z].
    destruct (Rlt_dec x 0) as [_ | Hpos]; [reflexivity | contradiction].
Qed.

Lemma initial_scale_pos :
  0 < scale (mkProjection initialDimensions (initialRotation defaultFacilityLocation)).
Proof.
  simpl. unfold Rmin. destruct (Rle_dec 800 500); lra.
Qed.

Lemma facility_faces_viewer (dims : Dimensions) (f : FacilityLocation) :
  Orthographic.angularDistance (mkProjection dims (initialRotation f))
    (f_lng f, f_lat f) = 0.
Proof.
  unfold Orthographic.angularDistance, Orthographic.depth.
  simpl rotate. unfold initialRotation. rewrite rotate3_centres.
  rewrite acos_1. unfold Orthographic.degrees. field. apply PI_neq0.
Qed.

Lemma orthographic_round_trip_witness :
  let proj := mkProjection initialDimensions (initialRotation defaultFacilityLocation) in
  let p := (f_lng defaultFacilityLocation, f_lat defaultFacilityLocation) in
  exists s p',
    Orthographic.project proj p = Some s
    /\ Orthographic.invert proj s = Some p'
    /\ p' = p.
Proof.
  intros proj p.
  destruct (orthographic_round_trip proj p initial_scale_pos) as [Hnear _].
  destruct Hnear as (s & p' & Hs & Hp' & _ & Hcoord).
  - unfold proj, p. rewrite facility_faces_viewer. lra.
  - exists s, p'. split; [exact Hs |]. split; [exact Hp' |].
    apply Hcoord; simpl; lra.
Defined.

(** ** Further properties of the code *)

(** *** Quaternion and vector algebra *)

(** X1: [versor.multiply] is associative, has [[1, 0, 0, 0]] as identity
    on both sides, and multiplies norms. *)
Theorem multiply_monoid (a b c : quad) :
  versor.multiply (versor.multiply a b) c = versor.multiply a (versor.multiply b c)
  /\ versor.multiply (1, 0, 0, 0) a = a
  /\ versor.multiply a (1, 0, 0, 0) = a
  /\ norm2_4 (versor.multiply a b) = norm2_4 a * norm2_4 b.
Proof.
  split; [| split; [apply multiply_identity_l | split; [| apply multiply_norm]]].
  - destruct a as [[[a0 a1] a2] a3], b as [[[b0 b1] b2] b3],
             c as [[[c0 c1] c2] c3].
    simpl. tuple_eq; ring.
  - destruct a as [[[a0 a1] a2] a3]. simpl. tuple_eq; ring.
Qed.

(** X2: [versor.cross] is perpendicular to both of its arguments,
    changes sign when they are swapped, vanishes on equal arguments, and
    [versor.dot] is symmetric. *)
Theorem cross_perpendicular (a b : triple) :
  versor.dot (versor.cross a b) a = 0
  /\ versor.dot (versor.cross a b) b = 0
  /\ versor.cross a a = (0, 0, 0)
  /\ (let '(c0, c1, c2) := versor.cross a b in
      versor.cross b a = (- c0, - c1, - c2))
  /\ versor.dot a b = versor.dot b a.
Proof.
  destruct a as [[a0 a1] a2], b as [[b0 b1] b2]. simpl.
  repeat split; try ring; tuple_eq; ring.
Qed.

(** X3: for unit vectors with a non-negative dot product,
    [versor.rotation] returns a quaternion of norm 1 whose rotation
    sends the first vector to the second. *)
Theorem rotation_acute_sends_anchor_to_target (v_0 v_1 : triple) :
  is_unit v_0 -> is_unit v_1 -> 0 <= versor.dot v_0 v_1 ->
  norm2_4 (versor.rotation v_0 v_1) = 1
  /\ rotateVector (versor.rotation v_0 v_1) v_0 = v_1.
Proof.
  intros H0 H1 Hd. split; [apply rotation_norm; assumption |].
  pose proof (rotation_image v_0 v_1 H0 H1) as Him. cbv zeta in Him.
  destruct v_0 as [[a0 a1] a2], v_1 as [[b0 b1] b2].
  rewrite Him.
  destruct (Rlt_dec _ 0) as [Hlt | _]; [lra |].
  tuple_eq; ring.
Qed.

Lemma rotation_acute_sends_anchor_to_target_witness :
  rotateVector (versor.rotation (1, 0, 0) (3/5, 4/5, 0)) (1, 0, 0) = (3/5, 4/5, 0).
Proof.
  apply (rotation_acute_sends_anchor_to_target (1, 0, 0) (3/5, 4/5, 0)).
  - unfold is_unit. simpl. lra.
  - unfold is_unit. simpl. lra.
  - simpl. lra.
Defined.

Lemma rotation_of_equal (x y z : R) :
  is_unit (x, y, z) -> versor.rotation (x, y, z) (x, y, z) = (1, 0, 0, 0).
Proof.
  unfold is_unit. simpl. intros Hu.
  assert (S4 : sqrt (2 * 2) = 2) by (apply sqrt_square; lra).
  unfold versor.rotation; simpl versor.cross; simpl versor.dot.
  destruct (Rlt_dec (x * x + y * y + z * z) 0) as [Hneg | _]; [lra |].
  rewrite Hu.
  replace ((1 + 1) / 2) with 1 by lra.
  replace (2 * (1 + 1)) with (2 * 2) by lra.
  rewrite sqrt_1, S4. tuple_eq; lra.
Qed.

Lemma rotation_of_opposite (x y z : R) :
  is_unit (x, y, z) -> versor.rotation (x, y, z) (- x, - y, - z) = (1, 0, 0, 0).
Proof.
  unfold is_unit. simpl. intros Hu.
  assert (S4 : sqrt (2 * 2) = 2) by (apply sqrt_square; lra).
  unfold versor.rotation; simpl versor.cross; simpl versor.dot.
  destruct (Rlt_dec (x * - x + y * - y + z * - z) 0) as [_ | Hpos]; [| lra].
  replace (x * - x + y * - y + z * - z) with (-1) by lra.
  replace ((1 - -1) / 2) with 1 by lra.
  replace (2 * (1 - -1)) with (2 * 2) by lra.
  rewrite sqrt_1, S4. tuple_eq; lra.
Qed.

(** X4: on two equal unit vectors, and on two opposite unit vectors,
    [versor.rotation] returns the identity quaternion [[1, 0, 0, 0]]. *)
Theorem rotation_degenerate_pairs (x y z : R) :
  is_unit (x, y, z) ->
  versor.rotation (x, y, z) (x, y, z) = (1, 0, 0, 0)
  /\ versor.rotation (x, y, z) (- x, - y, - z) = (1, 0, 0, 0).
Proof.
  intros Hu. split; [apply rotation_of_equal | apply rotation_of_opposite]; exact Hu.
Qed.

Lemma rotation_degenerate_pairs_witness :
  versor.rotation (0, 1, 0) (0, 1, 0) = (1, 0, 0, 0)
  /\ versor.rotation (0, 1, 0) (- 0, - 1, - 0) = (1, 0, 0, 0).
Proof.
  apply (rotation_degenerate_pairs 0 1 0). unfold is_unit. simpl. lra.
Defined.

(** The range of [Math.atan2]. *)
Lemma atan2_range (y x : R) : - PI < JsMath.atan2 y x <= PI.
Proof.
  pose proof PI_RGT_0 as Hpi.
  pose proof (atan_bound (y / x)) as Hb.
  unfold JsMath.atan2.
  destruct (Rlt_dec 0 x) as [Hx | Hx]; [lra |].
  destruct (Rlt_dec x 0) as [Hx' | Hx'].
  - destruct (Rle_dec 0 y) as [Hy | Hy].
    + assert (y / x <= 0).
      { unfold Rdiv. assert (/ x < 0) by (apply Rinv_lt_0_compat; exact Hx'). nra. }
      assert (atan (y / x) <= 0).
      { destruct (Req_dec (y / x) 0) as [-> | Hne]; [rewrite atan_0; lra |].
        left. rewrite <- atan_0. apply atan_increasing. lra. }
      lra.
    + assert (0 < y / x).
      { unfold Rdiv. assert (/ x < 0) by (apply Rinv_lt_0_compat; exact Hx'). nra. }
      assert (0 < atan (y / x)) by (rewrite <- atan_0; apply atan_increasing; lra).
      lra.
  - destruct (Rlt_dec 0 y); [lra |]. destruct (Rlt_dec y 0); lra.
Qed.

(** X5: the angles [versor.toEuler] returns are in range: the first and
    the third in [-180, 180], the second in [-90, 90].  (Both ends of
    the first range are met in the source: [Math.atan2] answers -180
    degrees where the model, which has one zero, answers 180.) *)
Theorem toEuler_range (q : quad) :
  let '(a, b, c) := versor.toEuler q in
  -180 <= a <= 180 /\ -90 <= b <= 90 /\ -180 <= c <= 180.
Proof.
  destruct q as [[[q_0 q_1] q_2] q_3]. unfold versor.toEuler.
  pose proof PI_RGT_0 as Hpi.
  assert (Hdeg : forall t lo hi, lo * PI / 180 <= t <= hi * PI / 180 ->
                                 lo <= t * 180 / PI <= hi).
  { intros t lo hi [Hlo Hhi]. split.
    - apply Rmult_le_reg_r with (PI / 180); [lra |].
      replace (t * 180 / PI * (PI / 180)) with t by (field; lra). lra.
    - apply Rmult_le_reg_r with (PI / 180); [lra |].
      replace (t * 180 / PI * (PI / 180)) with t by (field; lra). lra. }
  assert (Hdeg' : forall t, - PI < t <= PI -> -180 <= t * 180 / PI <= 180).
  { intros t [Hlo Hhi]. apply Hdeg. lra. }
  split; [apply Hdeg', atan2_range |].
  split; [| apply Hdeg', atan2_range].
  apply Hdeg.
  pose proof (asin_bound (Rmax (-1) (Rmin 1 (2 * (q_0 * q_2 - q_3 * q_1))))) as Hb.
  lra.
Qed.

(** X13: [versor.cartesian] tells apart any two geographic points with
    longitudes in (-180, 180] and latitudes strictly between the
    poles. *)
Theorem cartesian_separates (p q : pair2) :
  -180 < fst p <= 180 -> -90 < snd p < 90 ->
  -180 < fst q <= 180 -> -90 < snd q < 90 ->
  p <> q -> versor.cartesian p <> versor.cartesian q.
Proof.
  destruct p as [lp bp], q as [lq bq]. simpl.
  intros Hlp Hbp Hlq Hbq Hne Heq. apply Hne.
  rewrite <- (geoOf_cartesian lp bp Hlp Hbp), <- (geoOf_cartesian lq bq Hlq Hbq).
  rewrite Heq. reflexivity.
Qed.

Lemma cartesian_separates_witness :
  versor.cartesian (121.4737, 31.2304) <> versor.cartesian (-98.5795, 39.8283).
Proof.
  apply (cartesian_separates (121.4737, 31.2304) (-98.5795, 39.8283));
    simpl; try lra.
  intros H. injection H as H1 H2. lra.
Defined.

(** [versor.toEuler] on a quaternion about the third axis. *)
Lemma toEuler_third_axis (w z : R) :
  versor.toEuler (w, 0, 0, z) =
  (0, 0, JsMath.atan2 (2 * (w * z)) (1 - 2 * (z * z)) * 180 / PI).
Proof.
  unfold versor.toEuler.
  pose proof PI_RGT_0 as Hpi.
  replace (2 * (w * 0 + 0 * z)) with 0 by ring.
  replace (1 - 2 * (0 * 0 + 0 * 0)) with 1 by ring.
  replace (2 * (w * 0 - z * 0)) with 0 by ring.
  replace (2 * (w * z + 0 * 0)) with (2 * (w * z)) by ring.
  replace (1 - 2 * (0 * 0 + z * z)) with (1 - 2 * (z * z)) by ring.
  assert (A : JsMath.atan2 0 1 = 0).
  { unfold JsMath.atan2. destruct (Rlt_dec 0 1) as [_ | H]; [| lra].
    replace (0 / 1) with 0 by field. apply atan_0. }
  assert (B : Rmax (-1) (Rmin 1 0) = 0).
  { unfold Rmin, Rmax.
    destruct (Rle_dec 1 0); [lra |]. destruct (Rle_dec (-1) 0); lra. }
  rewrite A, B, asin_0.
  tuple_eq; try reflexivity; field; lra.
Qed.

(** The Euler angles of the turn between two points of the equator. *)
Lemma equator_euler (lng0 lng1 : R) :
  -90 <= lng1 - lng0 <= 90 ->
  versor.toEuler
    (versor.rotation (versor.cartesian (lng0, 0)) (versor.cartesian (lng1, 0)))
  = (0, 0, lng1 - lng0).
Proof.
  intros Hd. pose proof PI_RGT_0 as Hpi.
  set (a := lng0 * PI / 180). set (b := lng1 * PI / 180).
  assert (Hab : - (PI / 2) <= b - a <= PI / 2).
  { unfold a, b. split.
    - replace (lng1 * PI / 180 - lng0 * PI / 180)
        with ((lng1 - lng0) * (PI / 180)) by field. nra.
    - replace (lng1 * PI / 180 - lng0 * PI / 180)
        with ((lng1 - lng0) * (PI / 180)) by field. nra. }
  assert (V0 : versor.cartesian (lng0, 0) = (cos a, sin a, 0)).
  { rewrite cartesian_components. fold a.
    replace (0 * PI / 180) with 0 by field. rewrite cos_0, sin_0.
    tuple_eq; ring. }
  assert (V1 : versor.cartesian (lng1, 0) = (cos b, sin b, 0)).
  { rewrite cartesian_components. fold b.
    replace (0 * PI / 180) with 0 by field. rewrite cos_0, sin_0.
    tuple_eq; ring. }
  rewrite V0, V1.
  pose proof (rotation_shape (cos a, sin a, 0) (cos b, sin b, 0)) as Hshape.
  cbv zeta in Hshape.
  assert (C : versor.cross (cos a, sin a, 0) (cos b, sin b, 0) = (0, 0, sin (b - a))).
  { simpl. rewrite sin_minus. tuple_eq; ring. }
  assert (D : versor.dot (cos a, sin a, 0) (cos b, sin b, 0) = cos (b - a)).
  { simpl. rewrite cos_minus. ring. }
  rewrite C, D in Hshape.
  assert (Hc : 0 <= cos (b - a)) by (apply cos_ge_0; lra).
  assert (S : branchTerm (cos (b - a)) = 1 + cos (b - a)).
  { unfold branchTerm. destruct (Rlt_dec (cos (b - a)) 0); lra. }
  rewrite S in Hshape.
  set (w := sqrt ((1 + cos (b - a)) / 2)) in *.
  destruct Hshape as (Hrot & Hw2 & Hw).
  rewrite Hrot.
  replace (0 / (2 * w)) with 0 by (field; lra).
  rewrite toEuler_third_axis.
  pose proof (sin2_cos2' (b - a)) as Hsc.
  assert (Y : 2 * (w * (sin (b - a) / (2 * w))) = 1 * sin (b - a))
    by (field; lra).
  assert (X : 1 - 2 * (sin (b - a) / (2 * w) * (sin (b - a) / (2 * w)))
              = 1 * cos (b - a)).
  { replace (sin (b - a) / (2 * w) * (sin (b - a) / (2 * w)))
      with (sin (b - a) * sin (b - a) / (2 * (2 * (w * w)))) by (field; lra).
    rewrite Hw2.
    replace (sin (b - a) * sin (b - a)) with ((1 - cos (b - a)) * (1 + cos (b - a)))
      by nra.
    field. lra. }
  rewrite X, Y, atan2_angle by lra.
  tuple_eq; try reflexivity.
  unfold a, b. field. lra.
Qed.

(** X14: for two points of the equator at most 90 degrees apart, the
    Euler angles of [versor.rotation] on their vectors are
    [[0, 0, lng1 - lng0]]: the whole turn goes to the third angle. *)
Theorem equatorial_rotation_euler (lng0 lng1 : R) :
  -90 <= lng1 - lng0 <= 90 ->
  versor.toEuler
    (versor.rotation (versor.cartesian (lng0, 0)) (versor.cartesian (lng1, 0)))
  = (0, 0, lng1 - lng0).
Proof. apply equator_euler. Qed.

Lemma equatorial_rotation_euler_witness :
  versor.toEuler
    (versor.rotation (versor.cartesian (10, 0)) (versor.cartesian (40, 0)))
  = (0, 0, 40 - 10).
Proof.
  apply (equatorial_rotation_euler 10 40). lra.
Defined.


(** *** The drag controller, continued *)

Lemma toEuler_identity : versor.toEuler (1, 0, 0, 0) = (0, 0, 0).
Proof.
  rewrite toEuler_third_axis.
  replace (2 * (1 * 0)) with 0 by ring.
  replace (1 - 2 * (0 * 0)) with 1 by ring.
  unfold JsMath.atan2. destruct (Rlt_dec 0 1) as [_ | H]; [| lra].
  replace (0 / 1) with 0 by field. rewrite atan_0.
  pose proof PI_RGT_0. tuple_eq; try reflexivity. field. lra.
Qed.

Lemma addEuler_zero (r : triple) : addEuler r (0, 0, 0) = r.
Proof. destruct r as [[a b] c]. simpl. tuple_eq; ring. Qed.

(** X6: a pointer-down that finds a point of the globe starts a drag,
    and a pointer-move at the same position then sets the rotation to
    the one the effect captured.  When that is the current rotation, as
    at mount and after every re-run of the effect, the globe does not
    turn; when a move has changed the rotation and the effect has not
    run again, it turns back to the captured rotation. *)
Theorem press_without_motion
    (geoProject geoInvert : Projection -> pair2 -> option pair2)
    (st : Component) (rect : DOMRect) (event : MouseEvent) (pos : pair2) :
  geoInvert (mkProjection (e_dimensions (effect st)) (e_rotation (effect st)))
    (clientX event - left rect, clientY event - top rect) = Some pos ->
  let pressed := step geoProject geoInvert st (MouseDown rect event) in
  let moved := step geoProject geoInvert pressed (MouseMove rect event) in
  Dragging (effect pressed)
  /\ rotation pressed = rotation st
  /\ rotation moved = e_rotation (effect st)
  /\ (e_rotation (effect st) = rotation st -> rotation moved = rotation st)
  /\ (forall f, e_rotation (effect (mount f)) = rotation (mount f))
  /\ (forall before,
        e_rotation (effect (step geoProject geoInvert before EffectRerun))
        = rotation (step geoProject geoInvert before EffectRerun)).
Proof.
  intros Hinv pressed moved.
  assert (E : effect pressed =
              {| e_dimensions := e_dimensions (effect st);
                 e_rotation := e_rotation (effect st);
                 v0 := Some (versor.cartesian pos);
                 r0 := Some (e_rotation (effect st));
                 q0 := Some (1, 0, 0, 0) |}).
  { subst pressed. simpl. unfold handleMouseDown. rewrite Hinv. reflexivity. }
  assert (M : rotation moved = e_rotation (effect st)).
  { subst moved.
    change (rotation (step geoProject geoInvert pressed (MouseMove rect event)))
      with (match handleMouseMove geoInvert (effect pressed) rect event with
            | Some r => r
            | None => rotation pressed
            end).
    rewrite E. unfold handleMouseMove, moveQuaternions. cbn [v0 r0 q0 e_dimensions].
    rewrite Hinv.
    pose proof (cartesian_is_unit pos) as Hu.
    destruct (versor.cartesian pos) as [[x y] z].
    rewrite (rotation_of_equal x y z Hu), multiply_identity_l, toEuler_identity.
    apply addEuler_zero. }
  split; [rewrite E; do 3 eexists; simpl; repeat split |].
  split; [reflexivity |].
  split; [exact M |].
  split; [intros Hsync; rewrite M; exact Hsync |].
  split; [intros f; reflexivity | intros before; reflexivity].
Qed.

Lemma press_without_motion_witness :
  let flat := fun (_ : Projection) (p : pair2) => Some p in
  let plate := fun (proj : Projection) (p : pair2) =>
    Some ((fst p - fst (translate proj)) / 5 - fst (fst (rotate proj)),
          (snd (translate proj) - snd p) / 5 - snd (fst (rotate proj))) in
  let rect := {| left := 0; top := 0 |} in
  let at_ := fun x => {| clientX := x; clientY := 250; pageX := x; pageY := 250 |} in
  let st := run flat plate (mount defaultFacilityLocation)
              [MouseDown rect (at_ 450); MouseMove rect (at_ 600); MouseUp;
               EffectRerun] in
  rotation (run flat plate st [MouseDown rect (at_ 300); MouseMove rect (at_ 300)])
  = rotation st.
Proof.
  intros flat plate rect at_ st.
  exact (proj1 (proj2 (proj2 (proj2
           (press_without_motion flat plate st rect (at_ 300) _ eq_refl))))
         eq_refl).
Defined.

(** Events other than a pointer-down leave an idle controller idle and
    the rotation as it is. *)
Lemma idle_step (geoProject geoInvert : Projection -> pair2 -> option pair2)
    (st : Component) (ev : Event) :
  v0 (effect st) = None ->
  match ev with MouseDown _ _ => False | _ => True end ->
  v0 (effect (step geoProject geoInvert st ev)) = None
  /\ rotation (step geoProject geoInvert st ev) = rotation st.
Proof.
  intros Hidle Hev.
  destruct ev; try contradiction; simpl; try (split; [assumption || reflexivity | reflexivity]).
  split; [exact Hidle |].
  unfold handleMouseMove, moveQuaternions. rewrite Hidle. reflexivity.
Qed.

Lemma idle_run (geoProject geoInvert : Projection -> pair2 -> option pair2)
    (evs : list Event) :
  forall st,
    v0 (effect st) = None ->
    Forall (fun ev => match ev with MouseDown _ _ => False | _ => True end) evs ->
    v0 (effect (run geoProject geoInvert st evs)) = None
    /\ rotation (run geoProject geoInvert st evs) = rotation st.
Proof.
  induction evs as [| ev evs IH]; intros st Hidle Hall; simpl.
  - split; [exact Hidle | reflexivity].
  - inversion Hall as [| ? ? Hev Hrest]; subst.
    destruct (idle_step geoProject geoInvert st ev Hidle Hev) as [Hidle' Hrot].
    destruct (IH _ Hidle' Hrest) as [Hfinal Hrot'].
    split; [exact Hfinal | rewrite Hrot'; exact Hrot].
Qed.

(** X7: once the pointer is released or leaves the canvas, or once the
    effect has run again (as it does after every rotation update), no
    sequence of events without a new pointer-down changes the rotation:
    pointer-moves rotate the globe only between a pointer-down and the
    next of those three. *)
Theorem released_drag_ignores_moves
    (geoProject geoInvert : Projection -> pair2 -> option pair2)
    (st : Component) (ending : Event) (evs : list Event) :
  ending = MouseUp \/ ending = MouseLeave \/ ending = EffectRerun ->
  Forall (fun ev => match ev with MouseDown _ _ => False | _ => True end) evs ->
  rotation (run geoProject geoInvert (step geoProject geoInvert st ending) evs)
  = rotation st
  /\ ~ Dragging (effect (run geoProject geoInvert
                           (step geoProject geoInvert st ending) evs)).
Proof.
  intros Hend Hall.
  assert (Hidle : v0 (effect (step geoProject geoInvert st ending)) = None)
    by (destruct Hend as [-> | [-> | ->]]; reflexivity).
  assert (Hrot : rotation (step geoProject geoInvert st ending) = rotation st)
    by (destruct Hend as [-> | [-> | ->]]; reflexivity).
  destruct (idle_run geoProject geoInvert evs _ Hidle Hall) as [Hfinal Hrot'].
  split; [rewrite Hrot'; exact Hrot |].
  intros (v & _ & _ & Hv & _). rewrite Hfinal in Hv. discriminate.
Qed.

Lemma released_drag_ignores_moves_witness :
  let origin := fun (_ : Projection) (_ : pair2) => Some (0, 0) in
  let flat := fun (_ : Projection) (p : pair2) => Some p in
  let rect := {| left := 0; top := 0 |} in
  let event := {| clientX := 300; clientY := 250; pageX := 300; pageY := 250 |} in
  let st := step flat origin (mount defaultFacilityLocation) (MouseDown rect event) in
  rotation (run flat origin (step flat origin st EffectRerun)
              [MouseMove rect event; MouseMove rect event])
  = rotation st.
Proof.
  intros origin flat rect event st.
  refine (proj1 (released_drag_ignores_moves flat origin st EffectRerun
                   [MouseMove rect event; MouseMove rect event] _ _)).
  - right. right. reflexivity.
  - repeat constructor.
Defined.

(** The circle [render] fills for the globe lies within the canvas. *)
Lemma globe_within (dims : Dimensions) (r : triple) :
  0 <= width dims -> 0 <= height dims ->
  let proj := mkProjection dims r in
  0 <= scale proj
  /\ 0 <= fst (translate proj) - scale proj
  /\ fst (translate proj) + scale proj <= width dims
  /\ 0 <= snd (translate proj) - scale proj
  /\ snd (translate proj) + scale proj <= height dims.
Proof.
  intros Hw Hh. simpl.
  assert (Hm : 0 <= Rmin (width dims) (height dims)
               /\ Rmin (width dims) (height dims) <= width dims
               /\ Rmin (width dims) (height dims) <= height dims).
  { unfold Rmin. destruct (Rle_dec (width dims) (height dims)); lra. }
  destruct Hm as (M0 & Mw & Mh).
  repeat split; lra.
Qed.

(** X8: after a resize to a container of non-negative width the canvas
    is a square of side at most 600, and the globe drawn on it -- the
    circle of radius [scale] about [translate] -- lies within the
    canvas. *)
Theorem resized_globe_fits
    (geoProject geoInvert : Projection -> pair2 -> option pair2)
    (st : Component) (containerWidth : R) (r : triple) :
  0 <= containerWidth ->
  let dims := dimensions (step geoProject geoInvert st (Resize containerWidth)) in
  let proj := mkProjection dims r in
  width dims = height dims /\ width dims <= 600 /\ width dims <= containerWidth
  /\ scale proj = width dims / 2.2
  /\ 0 <= fst (translate proj) - scale proj
  /\ fst (translate proj) + scale proj <= width dims
  /\ 0 <= snd (translate proj) - scale proj
  /\ snd (translate proj) + scale proj <= height dims.
Proof.
  intros Hcw dims proj.
  assert (Hside : width dims = Rmin containerWidth 600) by reflexivity.
  assert (Hsq : height dims = Rmin containerWidth 600) by reflexivity.
  assert (Hb : 0 <= Rmin containerWidth 600 /\ Rmin containerWidth 600 <= 600
               /\ Rmin containerWidth 600 <= containerWidth).
  { unfold Rmin. destruct (Rle_dec containerWidth 600); lra. }
  destruct (globe_within dims r) as (_ & A & B & C & D); try lra.
  split; [lra |]. split; [lra |]. split; [lra |].
  split.
  { change (scale proj) with (Rmin (width dims) (height dims) / 2.2).
    rewrite Hsq, <- Hside.
    unfold Rmin. destruct (Rle_dec (width dims) (width dims)); reflexivity. }
  repeat split; assumption.
Qed.

Lemma resized_globe_fits_witness :
  let origin := fun (_ : Projection) (_ : pair2) => Some (0, 0) in
  let flat := fun (_ : Projection) (p : pair2) => Some p in
  width (dimensions (step flat origin (mount defaultFacilityLocation) (Resize 1024)))
  <= 600.
Proof.
  intros origin flat.
  refine (proj1 (proj2 (resized_globe_fits flat origin (mount defaultFacilityLocation)
                          1024 (0, 0, 0) _))).
  lra.
Defined.

(** *** Route colours *)

Lemma round_of_integer (z : Z) : Math.round (IZR z) = IZR z.
Proof.
  unfold Math.round. f_equal. apply Zfloor_eq. lra.
Qed.

Lemma round_monotone (x y : R) : x <= y -> Math.round x <= Math.round y.
Proof.
  intros H. unfold Math.round. apply IZR_le, Zfloor_le. lra.
Qed.

Lemma max_emissions :
  Math.max (map emissionsKgCO2 SUPPLY_CHAIN_DATA) = Some 6480.
Proof.
  simpl. f_equal.
  repeat match goal with
         | |- context [Rmax ?a ?b] =>
             first [ rewrite (Rmax_left a b) by lra
                   | rewrite (Rmax_right a b) by lra ]
         end.
  reflexivity.
Qed.

Lemma routeChannels_unfold (emissions : R) :
  routeChannels emissions =
  (Math.round (59 + emissions / 6480 * (239 - 59)),
   Math.round (130 + emissions / 6480 * (68 - 130)),
   Math.round (246 + emissions / 6480 * (68 - 246))).
Proof.
  unfold routeChannels. rewrite max_emissions. reflexivity.
Qed.

Lemma dataset_emissions_range (s : SupplyChainNode) :
  In s SUPPLY_CHAIN_DATA -> 0 <= emissionsKgCO2 s <= 6480.
Proof.
  intros Hin. simpl in Hin.
  repeat (destruct Hin as [<- | Hin]; [simpl; lra |]).
  destruct Hin.
Qed.

(** X9: for emissions between 0 and the largest of the dataset (which
    every supplier's are), the three channels [getRouteColor] computes
    are whole numbers within 59..239, 68..130 and 68..246, and with more
    emissions red does not decrease while green and blue do not
    increase; the largest emissions give (239, 68, 68). *)
Theorem route_color_gradient (e1 e2 : R) :
  0 <= e1 -> e1 <= e2 -> e2 <= 6480 ->
  let '(r1, g1, b1) := routeChannels e1 in
  let '(r2, g2, b2) := routeChannels e2 in
  (59 <= r1 <= r2 /\ r2 <= 239)
  /\ (68 <= g2 <= g1 /\ g1 <= 130)
  /\ (68 <= b2 <= b1 /\ b1 <= 246)
  /\ (exists zr zg zb, (r1, g1, b1) = (IZR zr, IZR zg, IZR zb))
  /\ routeChannels 6480 = (239, 68, 68)
  /\ forall s, In s SUPPLY_CHAIN_DATA -> 0 <= emissionsKgCO2 s <= 6480.
Proof.
  intros H0 H12 H2.
  rewrite (routeChannels_unfold e1), (routeChannels_unfold e2).
  assert (T1 : 0 <= e1 / 6480 <= 1) by (split; [apply Rle_mult_inv_pos |]; lra).
  assert (T2 : 0 <= e2 / 6480 <= 1) by (split; [apply Rle_mult_inv_pos |]; lra).
  assert (T12 : e1 / 6480 <= e2 / 6480) by lra.
  set (t1 := e1 / 6480) in *. set (t2 := e2 / 6480) in *.
  pose proof (round_of_integer 59) as R59. pose proof (round_of_integer 239) as R239.
  pose proof (round_of_integer 68) as R68. pose proof (round_of_integer 130) as R130.
  pose proof (round_of_integer 246) as R246.
  split; [| split; [| split; [| split; [| split]]]].
  - rewrite <- R59, <- R239. repeat split; apply round_monotone; nra.
  - rewrite <- R68, <- R130. repeat split; apply round_monotone; nra.
  - rewrite <- R68, <- R246. repeat split; apply round_monotone; nra.
  - unfold Math.round. do 3 eexists. reflexivity.
  - rewrite routeChannels_unfold.
    replace (59 + 6480 / 6480 * (239 - 59)) with (IZR 239) by (simpl; field).
    replace (130 + 6480 / 6480 * (68 - 130)) with (IZR 68) by (simpl; field).
    replace (246 + 6480 / 6480 * (68 - 246)) with (IZR 68) by (simpl; field).
    rewrite !round_of_integer. reflexivity.
  - apply dataset_emissions_range.
Qed.

Lemma route_color_gradient_witness :
  let '(r1, g1, b1) := routeChannels 360 in
  let '(r2, g2, b2) := routeChannels 5900 in
  r1 <= r2 /\ g2 <= g1 /\ b2 <= b1.
Proof.
  pose proof (route_color_gradient 360 5900) as H.
  destruct (routeChannels 360) as [[r1 g1] b1].
  destruct (routeChannels 5900) as [[r2 g2] b2].
  destruct H as (Hr & Hg & Hb & _); try lra.
Defined.

(** *** Drawing a route *)

Lemma pathOfRun_extend (cur : list pair2) (p : pair2) :
  cur <> [] -> extendPath (pathOfRun cur) p = pathOfRun (cur ++ [p]).
Proof.
  intros Hne. destruct cur as [| a cur]; [contradiction |]. reflexivity.
Qed.

(** The visible samples, in order. *)
Lemma splitRuns_covers (projected : list (option pair2)) :
  forall current,
    let '(closed, open) := splitRuns projected current in
    List.concat closed ++ open
    = current ++ flat_map (fun o => match o with Some p => [p] | None => [] end)
                   projected.
Proof.
  induction projected as [| [p |] rest IH]; intros current; simpl.
  - rewrite app_nil_r. reflexivity.
  - specialize (IH (current ++ [p])).
    destruct (splitRuns rest (current ++ [p])) as [closed open].
    rewrite IH, <- app_assoc. reflexivity.
  - specialize (IH []).
    destruct (splitRuns rest []) as [closed open].
    destruct current as [| a cur]; simpl in *.
    + exact IH.
    + rewrite <- app_assoc, IH. reflexivity.
Qed.

(** What the loop over the samples paints, and the path it leaves, when
    it starts with the run [current] on the path. *)
Lemma drawArcPoints_paints (projected : list (option pair2)) :
  forall (current : list pair2) (ctx : Context2D),
    path ctx = pathOfRun current ->
    let started := match current with [] => false | _ => true end in
    let ctx' := canvasCalls ctx (drawArcPoints projected started) in
    let '(closed, open) := splitRuns projected current in
    painted ctx' =
      painted ctx ++
      map (fun run => {| p_style := strokeStyle ctx; p_width := lineWidth ctx;
                         p_alpha := globalAlpha ctx; p_path := [run] |}) closed
    /\ path ctx' = pathOfRun open
    /\ strokeStyle ctx' = strokeStyle ctx
    /\ lineWidth ctx' = lineWidth ctx
    /\ globalAlpha ctx' = globalAlpha ctx.
Proof.
  unfold canvasCalls.
  induction projected as [| [p |] rest IH]; intros current ctx Hpath; cbv zeta.
  - simpl. rewrite app_nil_r. repeat split. exact Hpath.
  - destruct current as [| a cur].
    + pose proof (IH [p] (canvasCall ctx (moveTo (fst p) (snd p)))) as IH'.
      cbv zeta in IH'. cbn [drawArcPoints splitRuns fold_left app].
      destruct (splitRuns rest [p]) as [closed open].
      apply IH'. cbn. rewrite Hpath, <- surjective_pairing. reflexivity.
    + pose proof (IH ((a :: cur) ++ [p]) (canvasCall ctx (lineTo (fst p) (snd p))))
        as IH'.
      cbv zeta in IH'. cbn [drawArcPoints splitRuns fold_left].
      destruct (splitRuns rest ((a :: cur) ++ [p])) as [closed open].
      apply IH'. cbn [path canvasCall].
      rewrite Hpath, <- surjective_pairing.
      apply pathOfRun_extend. discriminate.
  - destruct current as [| a cur].
    + pose proof (IH [] ctx Hpath) as IH'.
      cbv zeta in IH'. cbn [drawArcPoints splitRuns fold_left].
      destruct (splitRuns rest []) as [closed open]. exact IH'.
    + pose proof (IH [] (canvasCall (canvasCall ctx stroke) beginPath) eq_refl) as IH'.
      cbv zeta in IH'. cbn [drawArcPoints splitRuns fold_left].
      destruct (splitRuns rest []) as [closed open].
      destruct IH' as (Hp & Hrest). split; [| exact Hrest].
      rewrite Hp. cbn. rewrite Hpath, <- app_assoc. reflexivity.
Qed.

(** X10: drawing a route paints one polyline for each run of
    consecutive visible samples and none across a hidden sample; the
    runs closed by a hidden sample are stroked with the style, width and
    alpha in force before the route is drawn, and only the run still
    open at the end with the route's colour, width 2 and alpha 0.7.
    Together the runs are exactly the visible samples, in order. *)
Theorem route_painted_in_runs (color : string) (projected : list (option pair2))
    (ctx : Context2D) :
  let '(closed, open) := splitRuns projected [] in
  painted (canvasCalls ctx (drawArc color projected)) =
    painted ctx ++
    map (fun run => {| p_style := strokeStyle ctx; p_width := lineWidth ctx;
                       p_alpha := globalAlpha ctx; p_path := [run] |}) closed
    ++ [{| p_style := color; p_width := 2; p_alpha := 0.7;
           p_path := pathOfRun open |}]
  /\ List.concat closed ++ open
     = flat_map (fun o => match o with Some p => [p] | None => [] end) projected
  /\ Forall (fun run => run <> []) closed.
Proof.
  pose proof (drawArcPoints_paints projected [] (canvasCall ctx beginPath) eq_refl)
    as Hloop.
  pose proof (splitRuns_covers projected []) as Hcover.
  assert (Hne : forall l cur, Forall (fun run : list pair2 => run <> [])
                                (fst (splitRuns l cur))).
  { induction l as [| [p |] rest IH]; intros cur; simpl.
    - constructor.
    - apply IH.
    - specialize (IH []). destruct (splitRuns rest []) as [cl op].
      destruct cur; simpl in *; [exact IH | constructor; [discriminate | exact IH]]. }
  specialize (Hne projected []).
  simpl in Hloop.
  destruct (splitRuns projected []) as [closed open].
  destruct Hloop as (Hp & Hpath & Hs & Hw & Ha).
  split; [| split; [exact Hcover | exact Hne]].
  unfold drawArc, canvasCalls in *. simpl fold_left.
  rewrite fold_left_app. simpl.
  rewrite Hp, Hpath, <- app_assoc. reflexivity.
Qed.

(** *** Particles, continued *)

Lemma particle_wraps_within (k : nat) :
  forall p, 1 - 0.003 * INR (S k) < p -> p <= 1 ->
            exists n, (1 <= n <= S k)%nat /\ ticks n p = 0.
Proof.
  induction k as [| k IH]; intros p Hlow Hhigh.
  - exists 1%nat. split; [lia |]. simpl in *.
    destruct (updateParticle_cases p) as [[_ E] | [Hle _]]; [exact E | lra].
  - destruct (updateParticle_cases p) as [[_ E] | [Hle E]].
    + exists 1%nat. split; [lia | exact E].
    + rewrite S_INR in Hlow.
      destruct (IH (p + 0.003)) as (n & Hn & Hz); [lra | lra |].
      exists (S n). split; [lia |]. simpl. rewrite E. exact Hz.
Qed.

(** X11: every particle whose progress is in [0, 1] is back at 0, the
    source end of its route, after at least one and at most 334 render
    ticks. *)
Theorem particle_restarts (p : R) :
  0 <= p <= 1 -> exists n, (1 <= n <= 334)%nat /\ ticks n p = 0.
Proof.
  intros Hp. apply (particle_wraps_within 333); [| lra].
  replace (INR 334) with 334 by (rewrite INR_IZR_INZ; reflexivity). lra.
Qed.

Lemma particle_restarts_witness :
  exists n, (1 <= n <= 334)%nat /\ ticks n 0.5 = 0.
Proof.
  apply (particle_restarts 0.5). lra.
Defined.

(** *** Quarters *)

Lemma sameNumber_true (a b : R) : calculations.sameNumber a b = true <-> a = b.
Proof.
  unfold calculations.sameNumber. destruct (Req_dec_T a b); split; congruence.
Qed.

Lemma includes_In (xs : list R) (x : R) :
  calculations.includes xs x = true <-> In x xs.
Proof.
  unfold calculations.includes. rewrite existsb_exists. split.
  - intros (y & Hin & Heq). apply sameNumber_true in Heq. subst. exact Hin.
  - intros Hin. exists x. split; [exact Hin | apply sameNumber_true; reflexivity].
Qed.

(** The months of a quarter are those whose quarter it is. *)
Lemma quarter_months_iff (m q : Z) :
  calculations.includes (calculations.getQuarterMonths (IZR q)) (IZR m) = true
  <-> calculations.getQuarter (IZR m) = IZR q.
Proof.
  rewrite includes_In. unfold calculations.getQuarterMonths, calculations.getQuarter,
    Math.ceil. cbv zeta.
  split.
  - intros Hin. f_equal. apply Zceil_eq.
    simpl in Hin. destruct Hin as [H | [H | [H | []]]]; rewrite <- H; lra.
  - intros Heq. apply eq_IZR in Heq.
    pose proof (Zceil_bound (IZR m / 3)) as [Hlo Hhi]. rewrite Heq in Hlo, Hhi.
    assert (L : (3 * q - 3 < m)%Z).
    { apply lt_IZR. rewrite minus_IZR, mult_IZR. lra. }
    assert (U : (m <= 3 * q)%Z).
    { apply le_IZR. rewrite mult_IZR. lra. }
    assert (C : (m = 3 * q - 2 \/ m = 3 * q - 1 \/ m = 3 * q)%Z) by lia.
    simpl.
    destruct C as [-> | [-> | ->]];
      rewrite ?minus_IZR, ?mult_IZR;
      [left | right; left | right; right; left]; lra.
Qed.

(** Every month from 1 to 12 has a quarter from 1 to 4. *)
Lemma month_has_quarter (m : Z) :
  (1 <= m <= 12)%Z ->
  exists q, (1 <= q <= 4)%Z /\ calculations.getQuarter (IZR m) = IZR q.
Proof.
  intros Hm.
  exists (Zceil (IZR m / 3)). split; [| reflexivity].
  pose proof (Zceil_bound (IZR m / 3)) as [Hlo Hhi].
  assert (H1 : 1 <= IZR m) by (apply IZR_le; lia).
  assert (H12 : IZR m <= 12) by (apply IZR_le; lia).
  split.
  - assert (0 < Zceil (IZR m / 3))%Z by (apply lt_IZR; lra). lia.
  - assert (Zceil (IZR m / 3) - 1 < 4)%Z
      by (apply lt_IZR; rewrite minus_IZR; lra).
    lia.
Qed.

(** X15: a month from 1 to 12 has a quarter from 1 to 4, and the months
    [getQuarterMonths] lists for a quarter are exactly the months whose
    [getQuarter] is that quarter. *)
Theorem quarter_of_month (m : Z) :
  (1 <= m <= 12)%Z ->
  (exists q, (1 <= q <= 4)%Z /\ calculations.getQuarter (IZR m) = IZR q)
  /\ forall q : Z,
       calculations.includes (calculations.getQuarterMonths (IZR q)) (IZR m) = true
       <-> calculations.getQuarter (IZR m) = IZR q.
Proof.
  intros Hm. split; [exact (month_has_quarter m Hm) | intros q; apply quarter_months_iff].
Qed.

Lemma quarter_of_month_witness :
  exists q, (1 <= q <= 4)%Z /\ calculations.getQuarter (IZR 5) = IZR q.
Proof.
  apply (proj1 (quarter_of_month 5 ltac:(lia))).
Defined.

(** X16: [filterByQuarter] selects entries of the data only, and only
    of the year asked for; an entry of the data with a month from 1 to
    12 is selected exactly for its own year and the quarter of its
    month, so for exactly one quarter of one year. *)
Theorem filterByQuarter_partitions (data : list types.MonthlyData)
    (d : types.MonthlyData) (m : Z) :
  In d data -> types.month d = IZR m -> (1 <= m <= 12)%Z ->
  (forall (year : R) (q : Z) (e : types.MonthlyData),
     In e (calculations.filterByQuarter data year (IZR q)) ->
     In e data /\ types.year e = year)
  /\ (forall (year : R) (q : Z),
        In d (calculations.filterByQuarter data year (IZR q))
        <-> types.year d = year /\ calculations.getQuarter (types.month d) = IZR q)
  /\ exists q : Z,
       (1 <= q <= 4)%Z
       /\ forall (year : R) (q' : Z),
            In d (calculations.filterByQuarter data year (IZR q'))
            <-> year = types.year d /\ q' = q.
Proof.
  intros Hin Hmonth Hm.
  assert (Hspec : forall (year : R) (q : Z),
             In d (calculations.filterByQuarter data year (IZR q))
             <-> types.year d = year
                 /\ calculations.getQuarter (types.month d) = IZR q).
  { intros year q. unfold calculations.filterByQuarter. rewrite filter_In.
    rewrite andb_true_iff, sameNumber_true, Hmonth, quarter_months_iff.
    tauto. }
  split; [| split; [exact Hspec |]].
  - intros year q e He. unfold calculations.filterByQuarter in He.
    apply filter_In in He as [He Htest].
    apply andb_true_iff in Htest as [Hy _]. apply sameNumber_true in Hy.
    split; assumption.
  - destruct (month_has_quarter m Hm) as (q & Hq & Hquarter).
    exists q. split; [exact Hq |].
    intros year q'. rewrite Hspec, Hmonth, Hquarter. split.
    + intros [Hy Hq']. split; [symmetry; exact Hy | symmetry; apply eq_IZR; exact Hq'].
    + intros [-> ->]. split; reflexivity.
Qed.

(** X17: the quarter before quarter 1 to 4 of a year is again a quarter
    1 to 4, and it is the one just before: counting quarters as
    4 * year + quarter, it comes exactly one earlier. *)
Theorem previous_quarter_is_adjacent (y : R) (q : Z) :
  (1 <= q <= 4)%Z ->
  let prev := calculations.getPreviousQuarter
                {| types.q_year := y; types.quarter := IZR q |} in
  (exists q' : Z, (1 <= q' <= 4)%Z /\ types.quarter prev = IZR q')
  /\ 4 * types.q_year prev + types.quarter prev = 4 * y + IZR q - 1.
Proof.
  intros Hq. unfold calculations.getPreviousQuarter. simpl.
  destruct (Req_dec_T (IZR q) 1) as [H1 | H1]; simpl.
  - split; [exists 4%Z; split; [lia | reflexivity] | rewrite H1; lra].
  - split; [| lra].
    exists (q - 1)%Z. split; [| rewrite minus_IZR; reflexivity].
    assert (q <> 1)%Z by (intros ->; apply H1; reflexivity). lia.
Qed.

Lemma previous_quarter_is_adjacent_witness :
  let prev := calculations.getPreviousQuarter
                {| types.q_year := 2024; types.quarter := IZR 1 |} in
  4 * types.q_year prev + types.quarter prev = 4 * 2024 + IZR 1 - 1.
Proof.
  exact (proj2 (previous_quarter_is_adjacent 2024 1 ltac:(lia))).
Defined.

Lemma filterByQuarter_partitions_witness :
  let may := {| types.id := "2024-5"; types.year := 2024; types.month := 5;
                types.electricityKwh := 15000; types.naturalGasTherm := 400;
                types.waterGallons := 25000; types.inboundDeliveryMiles := 800;
                types.outboundShippingMiles := 400; types.employeeCount := 25;
                types.squareFeet := 10000; types.notes := None;
                types.createdAt := "t"; types.updatedAt := "t" |} in
  let may23 := {| types.id := "2023-5"; types.year := 2023; types.month := 5;
                  types.electricityKwh := 14000; types.naturalGasTherm := 380;
                  types.waterGallons := 24000; types.inboundDeliveryMiles := 700;
                  types.outboundShippingMiles := 300; types.employeeCount := 24;
                  types.squareFeet := 10000; types.notes := None;
                  types.createdAt := "t"; types.updatedAt := "t" |} in
  exists q : Z,
    (1 <= q <= 4)%Z
    /\ In may (calculations.filterByQuarter [may23; may] 2024 (IZR q))
    /\ ~ In may (calculations.filterByQuarter [may23; may] 2023 (IZR q))
    /\ ~ In may23 (calculations.filterByQuarter [may23; may] 2024 (IZR q)).
Proof.
  intros may may23.
  destruct (filterByQuarter_partitions [may23; may] may 5)
    as (Hdata & _ & q & Hq & Hone).
  - right. left. reflexivity.
  - reflexivity.
  - lia.
  - exists q. split; [exact Hq |]. split; [| split].
    + apply Hone. split; reflexivity.
    + intros Hin. apply Hone in Hin as [Hy _]. cbn in Hy. lra.
    + intros Hin. apply Hdata in Hin as [_ Hy]. cbn in Hy. lra.
Defined.

(** *** Emissions *)

(** What the loop of [aggregateMonthlyData] leaves in the summed
    fields. *)
Lemma fold_addMonth (months : list types.MonthlyData) :
  forall acc,
    let r := fold_left calculations.addMonth months acc in
    types.electricityKwh r = types.electricityKwh acc + sumOf types.electricityKwh months
    /\ types.naturalGasTherm r
       = types.naturalGasTherm acc + sumOf types.naturalGasTherm months
    /\ types.waterGallons r = types.waterGallons acc + sumOf types.waterGallons months
    /\ types.inboundDeliveryMiles r
       = types.inboundDeliveryMiles acc + sumOf types.inboundDeliveryMiles months
    /\ types.outboundShippingMiles r
       = types.outboundShippingMiles acc + sumOf types.outboundShippingMiles months
    /\ types.squareFeet r = types.squareFeet acc
    /\ types.year r = types.year acc
    /\ types.month r = types.month acc.
Proof.
  induction months as [| m months IH]; intros acc; simpl.
  - repeat split; lra.
  - destruct (IH (calculations.addMonth acc m)) as (A & B & C & D & E & F & G & H).
    simpl in *. rewrite A, B, C, D, E, F, G, H. repeat split; lra.
Qed.

Lemma fold_headcount (months : list types.MonthlyData) :
  forall acc,
    fold_left (fun sum m => sum + types.employeeCount m) months acc
    = acc + sumOf types.employeeCount months.
Proof.
  induction months as [| m months IH]; intros acc; simpl.
  - lra.
  - rewrite IH. lra.
Qed.

(** X18: [aggregateMonthlyData] returns null exactly on the empty list;
    otherwise each scope of the emissions of the aggregate, and their
    total, is the sum over the months of that scope; the aggregate
    keeps the first month's year, month and square feet, and its
    employee count is the rounded mean, whatever the maximum taken in
    the loop. *)
Theorem aggregate_emissions_add_up (created updated : string)
    (months : list types.MonthlyData) :
  (calculations.aggregateMonthlyData created updated months = None <-> months = [])
  /\ forall first rest, months = first :: rest ->
       exists agg,
         calculations.aggregateMonthlyData created updated months = Some agg
         /\ types.scope1 (calculations.calculateEmissions agg)
            = sumOf (fun m => types.scope1 (calculations.calculateEmissions m)) months
         /\ types.scope2 (calculations.calculateEmissions agg)
            = sumOf (fun m => types.scope2 (calculations.calculateEmissions m)) months
         /\ types.scope3 (calculations.calculateEmissions agg)
            = sumOf (fun m => types.scope3 (calculations.calculateEmissions m)) months
         /\ types.total (calculations.calculateEmissions agg)
            = sumOf (fun m => types.total (calculations.calculateEmissions m)) months
         /\ types.employeeCount agg
            = Math.round (sumOf types.employeeCount months / INR (List.length months))
         /\ types.year agg = types.year first
         /\ types.month agg = types.month first
         /\ types.squareFeet agg = types.squareFeet first.
Proof.
  split.
  - destruct months; simpl; split; congruence.
  - intros first rest ->.
    eexists. split; [reflexivity |].
    set (init := {| types.id := "aggregated"%string;
                    types.year := types.year first;
                    types.month := types.month first;
                    types.electricityKwh := 0; types.naturalGasTherm := 0;
                    types.waterGallons := 0; types.inboundDeliveryMiles := 0;
                    types.outboundShippingMiles := 0; types.employeeCount := 0;
                    types.squareFeet := types.squareFeet first;
                    types.notes := None; types.createdAt := created;
                    types.updatedAt := updated |}).
    destruct (fold_addMonth (first :: rest) init) as (A & B & C & D & E & F & G & H).
    assert (Lin : forall (f g : types.MonthlyData -> R) (k : R) l,
               (forall m, g m = f m * k) -> sumOf g l = sumOf f l * k).
    { intros f g k l Hfg. induction l as [| x l IHl]; simpl; [lra |].
      rewrite IHl, Hfg. lra. }
    assert (Add : forall (f g : types.MonthlyData -> R) l,
               sumOf (fun m => f m + g m) l = sumOf f l + sumOf g l).
    { intros f g l. induction l as [| x l IHl]; simpl; [lra |]. rewrite IHl. lra. }
    unfold calculations.calculateEmissions, calculations.withEmployeeCount.
    cbn [types.scope1 types.scope2 types.scope3 types.total types.naturalGasTherm
         types.electricityKwh types.inboundDeliveryMiles types.outboundShippingMiles
         types.employeeCount types.year types.month types.squareFeet].
    rewrite A, B, D, E, F, G, H, fold_headcount.
    cbn [init types.electricityKwh types.naturalGasTherm types.inboundDeliveryMiles
         types.outboundShippingMiles types.squareFeet types.year types.month].
    rewrite !Add.
    rewrite (Lin types.naturalGasTherm
               (fun m => types.naturalGasTherm m * calculations.NATURAL_GAS_KG_CO2_PER_THERM)
               calculations.NATURAL_GAS_KG_CO2_PER_THERM) by reflexivity.
    rewrite (Lin types.electricityKwh
               (fun m => types.electricityKwh m * calculations.ELECTRICITY_KG_CO2_PER_KWH)
               calculations.ELECTRICITY_KG_CO2_PER_KWH) by reflexivity.
    rewrite (Lin (fun m => types.inboundDeliveryMiles m + types.outboundShippingMiles m)
               (fun m => (types.inboundDeliveryMiles m + types.outboundShippingMiles m)
                         * calculations.TRANSPORT_KG_CO2_PER_MILE)
               calculations.TRANSPORT_KG_CO2_PER_MILE) by reflexivity.
    rewrite Add.
    repeat split; try lra.
    f_equal. lra.
Qed.

(** X19: each of the six intensities is a quotient by a divisor that is
    never 0: the employee count, or 1 when that is 0, for the three per
    employee, and the square feet, or 1 when that is 0, for the three
    per square foot; multiplied back, each gives the quantity divided:
    the electricity, the water, or the total emissions. *)
Theorem intensity_divisors_nonzero (data : types.MonthlyData) :
  let i := calculations.calculateIntensity data in
  let employees := calculations.orOne (types.employeeCount data) in
  let sqft := calculations.orOne (types.squareFeet data) in
  employees <> 0 /\ sqft <> 0
  /\ (types.employeeCount data <> 0 -> employees = types.employeeCount data)
  /\ (types.employeeCount data = 0 -> employees = 1)
  /\ (types.squareFeet data <> 0 -> sqft = types.squareFeet data)
  /\ (types.squareFeet data = 0 -> sqft = 1)
  /\ types.electricityPerEmployee i * employees = types.electricityKwh data
  /\ types.electricityPerSqFt i * sqft = types.electricityKwh data
  /\ types.waterPerEmployee i * employees = types.waterGallons data
  /\ types.waterPerSqFt i * sqft = types.waterGallons data
  /\ types.carbonPerEmployee i * employees
     = types.total (calculations.calculateEmissions data)
  /\ types.carbonPerSqFt i * sqft
     = types.total (calculations.calculateEmissions data).
Proof.
  intros i employees sqft.
  assert (He : employees <> 0).
  { unfold employees, calculations.orOne.
    destruct (Req_dec_T (types.employeeCount data) 0); lra. }
  assert (Hs : sqft <> 0).
  { unfold sqft, calculations.orOne.
    destruct (Req_dec_T (types.squareFeet data) 0); lra. }
  split; [exact He |]. split; [exact Hs |].
  split; [| split; [| split; [| split]]].
  - intros Hne. unfold employees, calculations.orOne.
    destruct (Req_dec_T (types.employeeCount data) 0); [contradiction | reflexivity].
  - intros Hz. unfold employees, calculations.orOne.
    destruct (Req_dec_T (types.employeeCount data) 0); [reflexivity | contradiction].
  - intros Hne. unfold sqft, calculations.orOne.
    destruct (Req_dec_T (types.squareFeet data) 0); [contradiction | reflexivity].
  - intros Hz. unfold sqft, calculations.orOne.
    destruct (Req_dec_T (types.squareFeet data) 0); [reflexivity | contradiction].
  - subst i. unfold calculations.calculateIntensity. cbv zeta.
    fold employees. fold sqft.
    cbn [types.carbonPerEmployee types.carbonPerSqFt types.electricityPerEmployee
         types.electricityPerSqFt types.waterPerEmployee types.waterPerSqFt].
    repeat split; field; assumption.
Qed.

Lemma percentChange_sign (current previous : R) :
  0 < previous ->
  (calculations.percentChange current previous < 0 <-> current < previous)
  /\ (calculations.percentChange current previous = 0 <-> current = previous).
Proof.
  intros Hpos. unfold calculations.percentChange.
  destruct (Req_dec_T previous 0) as [Hz | Hnz]; [lra |].
  assert (E : (current - previous) / previous * 100
              = (current - previous) * (100 / previous)) by (field; lra).
  assert (K : 0 < 100 / previous) by (apply Rdiv_lt_0_compat; lra).
  rewrite E. split; split; intros H; nra.
Qed.

(** X20: [percentChange] is 0 when the previous value is 0; otherwise
    it is the change that, applied to the previous value, gives the
    current one, and for a positive previous value its sign is that of
    current - previous. *)
Theorem percentChange_applies_back (current previous : R) :
  (previous = 0 -> calculations.percentChange current previous = 0)
  /\ (previous <> 0 ->
      previous * (1 + calculations.percentChange current previous / 100) = current)
  /\ (0 < previous ->
      (calculations.percentChange current previous < 0 <-> current < previous)
      /\ (calculations.percentChange current previous = 0 <-> current = previous)).
Proof.
  split; [| split; [| apply percentChange_sign]].
  - intros ->. unfold calculations.percentChange.
    destruct (Req_dec_T 0 0); [reflexivity | contradiction].
  - intros Hnz. unfold calculations.percentChange.
    destruct (Req_dec_T previous 0); [contradiction | field; exact Hnz].
Qed.

(** X12: on a card of the dashboard whose previous-quarter value is
    positive, the arrow points down, in green, exactly when the current
    value is below the previous one, up, in red, exactly when it is
    above, and the card shows the neutral sign when they are equal;
    with a previous value of 0, or with a quarter missing, it shows the
    neutral sign whatever the current value. *)
Theorem card_trend_follows_values (current previous : R) :
  (0 < previous ->
   let change := cardChange (Some current) (Some previous) in
   (current < previous ->
      MetricCard.getTrendIcon change = MetricCard.TrendingDown
      /\ MetricCard.getTrendColor change = "text-accent-green"%string)
   /\ (previous < current ->
      MetricCard.getTrendIcon change = MetricCard.TrendingUp
      /\ MetricCard.getTrendColor change = "text-accent-red"%string)
   /\ (current = previous ->
      MetricCard.getTrendIcon change = MetricCard.Minus
      /\ MetricCard.getTrendColor change = "text-gray-400"%string))
  /\ (MetricCard.getTrendIcon (cardChange (Some current) (Some 0)) = MetricCard.Minus
      /\ MetricCard.getTrendColor (cardChange (Some current) (Some 0))
         = "text-gray-400"%string)
  /\ (MetricCard.getTrendIcon (cardChange (Some current) None) = MetricCard.Minus
      /\ MetricCard.getTrendIcon (cardChange None (Some previous)) = MetricCard.Minus).
Proof.
  split; [| split].
  - intros Hpos change.
    destruct (percentChange_sign current previous Hpos) as ([N1 N2] & [Z1 Z2]).
    subst change. unfold cardChange, MetricCard.getTrendIcon, MetricCard.getTrendColor.
    set (pc := calculations.percentChange current previous) in *.
    destruct (Req_dec_T pc 0) as [Hz | Hnz]; [| destruct (Rlt_dec pc 0) as [Hlt | Hge]];
      repeat split; exfalso;
      try (apply Z1 in Hz); try (apply N1 in Hlt);
      try (assert (pc < 0) by (apply N2; lra));
      try (assert (pc = 0) by (apply Z2; lra)); lra.
  - unfold cardChange, calculations.percentChange.
    destruct (Req_dec_T 0 0) as [_ | H]; [| contradiction].
    simpl. destruct (Req_dec_T 0 0) as [_ | H]; [| contradiction].
    split; reflexivity.
  - split; reflexivity.
Qed.

(** *** Year to date *)

Lemma in_filterYearToDate (data : list types.MonthlyData) (year throughMonth : R)
    (d : types.MonthlyData) :
  In d (calculations.filterYearToDate data year throughMonth)
  <-> In d data /\ types.year d = year /\ types.month d <= throughMonth.
Proof.
  unfold calculations.filterYearToDate. rewrite filter_In, andb_true_iff, sameNumber_true.
  destruct (Rle_dec (types.month d) throughMonth); intuition congruence.
Qed.

Lemma in_filterByQuarter (data : list types.MonthlyData) (year quarter : R)
    (d : types.MonthlyData) :
  In d (calculations.filterByQuarter data year quarter)
  <-> In d data /\ types.year d = year
      /\ calculations.includes (calculations.getQuarterMonths quarter) (types.month d)
         = true.
Proof.
  unfold calculations.filterByQuarter. cbv zeta.
  rewrite filter_In, andb_true_iff, sameNumber_true. tauto.
Qed.

(** X28: for an entry whose month is a whole number from 1 on,
    [filterYearToDate] through the last month of quarter [q] selects it
    exactly when [filterByQuarter] selects it for one of the quarters 1
    to [q]. *)
Theorem year_to_date_is_quarters (data : list types.MonthlyData) (year : R)
    (d : types.MonthlyData) (m q : Z) :
  types.month d = IZR m -> (1 <= m)%Z ->
  In d (calculations.filterYearToDate data year (IZR (3 * q)))
  <-> exists q' : Z,
        (1 <= q' <= q)%Z /\ In d (calculations.filterByQuarter data year (IZR q')).
Proof.
  intros Hmonth Hm. rewrite in_filterYearToDate. split.
  - intros (Hin & Hyear & Hle). rewrite Hmonth in Hle. apply le_IZR in Hle.
    exists (Zceil (IZR m / 3)).
    pose proof (Zceil_bound (IZR m / 3)) as [Hlo Hhi].
    assert (H1 : 1 <= IZR m) by (apply IZR_le; lia).
    assert (Hq : IZR m <= 3 * IZR q) by (rewrite <- mult_IZR; apply IZR_le; lia).
    split; [split |].
    + assert (0 < Zceil (IZR m / 3))%Z by (apply lt_IZR; lra). lia.
    + assert (Zceil (IZR m / 3) - 1 < q)%Z; [| lia].
      apply lt_IZR. rewrite minus_IZR. lra.
    + apply in_filterByQuarter. repeat split; try assumption.
      rewrite Hmonth. apply quarter_months_iff. reflexivity.
  - intros (q' & [Hlo Hhi] & Hin). apply in_filterByQuarter in Hin as (Hin & Hyear & Hinc).
    repeat split; try assumption.
    rewrite Hmonth in Hinc |- *. apply quarter_months_iff in Hinc.
    unfold calculations.getQuarter, Math.ceil in Hinc. apply eq_IZR in Hinc.
    pose proof (Zceil_bound (IZR m / 3)) as [Hlo' Hhi']. rewrite Hinc in Hlo', Hhi'.
    assert (IZR q' <= IZR q) by (apply IZR_le; lia).
    rewrite mult_IZR. lra.
Qed.

Lemma year_to_date_is_quarters_witness :
  let may := {| types.id := "2024-5"; types.year := 2024; types.month := 5;
                types.electricityKwh := 15000; types.naturalGasTherm := 400;
                types.waterGallons := 25000; types.inboundDeliveryMiles := 800;
                types.outboundShippingMiles := 400; types.employeeCount := 25;
                types.squareFeet := 10000; types.notes := None;
                types.createdAt := "t"; types.updatedAt := "t" |} in
  In may (calculations.filterYearToDate [may] 2024 (IZR (3 * 2)))
  <-> exists q' : Z,
        (1 <= q' <= 2)%Z /\ In may (calculations.filterByQuarter [may] 2024 (IZR q')).
Proof.
  intros may.
  apply (year_to_date_is_quarters [may] 2024 may 5 2); [reflexivity | lia].
Defined.

(** *** The stored state *)

Lemma find_filter (test : types.MonthlyData -> bool) (xs : list types.MonthlyData) :
  find test xs = hd_error (filter test xs).
Proof.
  induction xs as [| x rest IH]; [reflexivity |].
  cbn. destruct (test x); [reflexivity | exact IH].
Qed.

Section StableSort.

Variable compare : types.MonthlyData -> types.MonthlyData -> R.
Variable test : types.MonthlyData -> bool.
Hypothesis tied : forall a b, test a = true -> test b = true -> compare a b <= 0.

Lemma filter_insertSorted (x : types.MonthlyData) (xs : list types.MonthlyData) :
  filter test (storage.insertSorted compare x xs)
  = if test x then x :: filter test xs else filter test xs.
Proof.
  induction xs as [| y rest IH]; cbn.
  - destruct (test x); reflexivity.
  - destruct (Rle_dec (compare x y) 0) as [Hle | Hgt]; cbn.
    + destruct (test x); reflexivity.
    + rewrite IH. destruct (test x) eqn:Ex, (test y) eqn:Ey; try reflexivity.
      exfalso. apply Hgt, tied; assumption.
Qed.

Lemma filter_sort (xs : list types.MonthlyData) :
  filter test (storage.sort compare xs) = filter test xs.
Proof.
  induction xs as [| x rest IH]; [reflexivity |].
  cbn. unfold storage.sort in IH. rewrite filter_insertSorted, IH. reflexivity.
Qed.

End StableSort.

Lemma isMonth_iff (year month : R) (d : types.MonthlyData) :
  storage.isMonth year month d = true <-> types.year d = year /\ types.month d = month.
Proof.
  unfold storage.isMonth, calculations.sameNumber.
  destruct (Req_dec_T (types.year d) year), (Req_dec_T (types.month d) month);
    cbn; split; intros H; try discriminate; try tauto.
Qed.

Lemma isMonth_tied (year month : R) (a b : types.MonthlyData) :
  storage.isMonth year month a = true -> storage.isMonth year month b = true ->
  storage.byDateDescending a b <= 0.
Proof.
  intros [Ha1 Ha2]%isMonth_iff [Hb1 Hb2]%isMonth_iff.
  unfold storage.byDateDescending.
  destruct (Req_dec_T (types.year a) (types.year b)); lra.
Qed.

(** Two different months never both match an entry. *)
Lemma isMonth_apart (y m y' m' : R) (d : types.MonthlyData) :
  (y', m') <> (y, m) ->
  storage.isMonth y m d = true -> storage.isMonth y' m' d = false.
Proof.
  intros Hne [H1 H2]%isMonth_iff.
  destruct (storage.isMonth y' m' d) eqn:E; [| reflexivity].
  apply isMonth_iff in E as [E1 E2]. exfalso. apply Hne. congruence.
Qed.

Section Upsert.

Variable test : types.MonthlyData -> bool.
Variable v : types.MonthlyData.

Lemma filter_replaceFirst_same (xs : list types.MonthlyData) :
  test v = true -> existsb test xs = true ->
  hd_error (filter test (storage.replaceFirst test v xs)) = Some v.
Proof.
  intros Hv. induction xs as [| x rest IH]; cbn; [discriminate |].
  destruct (test x) eqn:Ex; cbn.
  - rewrite Hv. reflexivity.
  - rewrite Ex. exact IH.
Qed.

Lemma filter_push_same (xs : list types.MonthlyData) :
  test v = true -> existsb test xs = false ->
  filter test (xs ++ [v]) = [v].
Proof.
  intros Hv. induction xs as [| x rest IH]; cbn.
  - rewrite Hv. reflexivity.
  - destruct (test x); cbn; [discriminate | exact IH].
Qed.

Variable other : types.MonthlyData -> bool.
Hypothesis apart : forall d, test d = true -> other d = false.

Lemma filter_replaceFirst_other (xs : list types.MonthlyData) :
  test v = true ->
  filter other (storage.replaceFirst test v xs) = filter other xs.
Proof.
  intros Hv. induction xs as [| x rest IH]; cbn; [reflexivity |].
  destruct (test x) eqn:Ex; cbn.
  - rewrite (apart v Hv), (apart x Ex). reflexivity.
  - rewrite IH. reflexivity.
Qed.

Lemma filter_push_other (xs : list types.MonthlyData) :
  test v = true -> filter other (xs ++ [v]) = filter other xs.
Proof.
  intros Hv. rewrite filter_app. cbn. rewrite (apart v Hv). apply app_nil_r.
Qed.

Lemma filter_removed_same (xs : list types.MonthlyData) :
  filter test (filter (fun d => negb (test d)) xs) = [].
Proof.
  induction xs as [| x rest IH]; cbn; [reflexivity |].
  destruct (test x) eqn:Ex; cbn; [exact IH | rewrite Ex; exact IH].
Qed.

Lemma filter_removed_other (xs : list types.MonthlyData) :
  filter other (filter (fun d => negb (test d)) xs) = filter other xs.
Proof.
  induction xs as [| x rest IH]; cbn; [reflexivity |].
  destruct (test x) eqn:Ex; cbn.
  - rewrite (apart x Ex). exact IH.
  - rewrite IH. reflexivity.
Qed.

End Upsert.

(** The comparator of the sort is a total preorder, so the insertions
    leave the list in order. *)

Lemma byDate_total (a b : types.MonthlyData) :
  ~ storage.byDateDescending a b <= 0 -> storage.byDateDescending b a <= 0.
Proof.
  unfold storage.byDateDescending.
  destruct (Req_dec_T (types.year a) (types.year b)),
    (Req_dec_T (types.year b) (types.year a)); try congruence; lra.
Qed.

Lemma byDate_trans (a b c : types.MonthlyData) :
  storage.byDateDescending a b <= 0 -> storage.byDateDescending b c <= 0 ->
  storage.byDateDescending a c <= 0.
Proof.
  unfold storage.byDateDescending.
  destruct (Req_dec_T (types.year a) (types.year b)),
    (Req_dec_T (types.year b) (types.year c)),
    (Req_dec_T (types.year a) (types.year c)); lra.
Qed.

Lemma insertSorted_Forall (P : types.MonthlyData -> Prop) (x : types.MonthlyData)
    (xs : list types.MonthlyData) :
  P x -> Forall P xs -> Forall P (storage.insertSorted storage.byDateDescending x xs).
Proof.
  intros Hx. induction 1 as [| y rest Hy Hrest IH]; cbn.
  - constructor; [exact Hx | constructor].
  - destruct (Rle_dec _ 0); repeat constructor; assumption.
Qed.

Lemma insertSorted_newestFirst (x : types.MonthlyData) (xs : list types.MonthlyData) :
  storage.newestFirst xs ->
  storage.newestFirst (storage.insertSorted storage.byDateDescending x xs).
Proof.
  unfold storage.newestFirst.
  induction 1 as [| y rest Hsorted IH Hall]; cbn.
  - constructor; constructor.
  - destruct (Rle_dec (storage.byDateDescending x y) 0) as [Hle | Hgt].
    + constructor; [constructor; assumption |].
      constructor; [exact Hle |].
      eapply Forall_impl; [| exact Hall].
      intros c Hc. exact (byDate_trans x y c Hle Hc).
    + constructor; [exact IH |].
      apply insertSorted_Forall; [apply byDate_total; exact Hgt | exact Hall].
Qed.

Lemma sort_newestFirst (xs : list types.MonthlyData) :
  storage.newestFirst (storage.sort storage.byDateDescending xs).
Proof.
  induction xs as [| x rest IH]; cbn.
  - constructor.
  - apply insertSorted_newestFirst. exact IH.
Qed.

Lemma newestFirst_filter (test : types.MonthlyData -> bool)
    (xs : list types.MonthlyData) :
  storage.newestFirst xs -> storage.newestFirst (filter test xs).
Proof.
  unfold storage.newestFirst.
  induction 1 as [| x rest Hsorted IH Hall]; cbn; [constructor |].
  destruct (test x); [| exact IH].
  constructor; [exact IH |].
  apply Forall_forall. intros y [Hy _]%filter_In.
  exact (proj1 (Forall_forall _ _) Hall y Hy).
Qed.

(** The comparator puts [a] before [b] when [a] is of a later year, or
    of the same year and not an earlier month. *)
Lemma byDate_order (a b : types.MonthlyData) :
  storage.byDateDescending a b <= 0
  <-> types.year b < types.year a
      \/ (types.year a = types.year b /\ types.month b <= types.month a).
Proof.
  unfold storage.byDateDescending.
  destruct (Req_dec_T (types.year a) (types.year b)); split; intros H; lra.
Qed.

Lemma StronglySorted_weaken {A : Type} (R1 R2 : A -> A -> Prop) (xs : list A) :
  (forall a b, R1 a b -> R2 a b) -> StronglySorted R1 xs -> StronglySorted R2 xs.
Proof.
  intros Himp. induction 1 as [| x rest Hsorted IH Hall]; constructor.
  - exact IH.
  - eapply Forall_impl; [| exact Hall]. intros b. apply Himp.
Qed.

Lemma existsb_isMonth (year month : R) (entries : list types.MonthlyData) :
  existsb (storage.isMonth year month) entries = true
  <-> exists d, In d entries /\ types.year d = year /\ types.month d = month.
Proof.
  rewrite existsb_exists. split; intros (d & Hin & H); exists d; (split; [exact Hin |]);
    apply isMonth_iff; exact H.
Qed.

Section StorageFacts.

Context {Objective : Type}.
Variable numberToString : R -> string.

#[local] Abbreviation Host := (storage.Host Objective).

Lemma spread_all (base s : types.AppSettings) :
  storage.spreadSettings base (storage.allOf s) = s.
Proof. destruct s; reflexivity. Qed.

Lemma state_reads_back (h : Host) (state : types.AppState Objective) :
  storage.writable h ->
  storage.getAppState (storage.saveAppState h state) = state.
Proof.
  intros [Hw Hf]. unfold storage.saveAppState, storage.getAppState.
  rewrite Hw, Hf. cbn. rewrite spread_all.
  destruct state; reflexivity.
Qed.

Lemma upsert_finds (entries : list types.MonthlyData) (data : types.MonthlyData)
    (now later : string) :
  find (storage.isMonth (types.year data) (types.month data))
       (storage.upsertMonth numberToString entries data now later)
  = Some (if existsb (storage.isMonth (types.year data) (types.month data)) entries
          then storage.updatedEntry data now
          else storage.createdEntry numberToString data now later).
Proof.
  unfold storage.upsertMonth. cbv zeta.
  set (same := storage.isMonth (types.year data) (types.month data)).
  rewrite find_filter, filter_sort by (apply isMonth_tied).
  destruct (existsb same entries) eqn:E.
  - apply filter_replaceFirst_same; [| exact E].
    apply isMonth_iff. split; reflexivity.
  - rewrite filter_push_same; [reflexivity | | exact E].
    apply isMonth_iff. split; reflexivity.
Qed.

Lemma upsert_keeps_others (entries : list types.MonthlyData) (data : types.MonthlyData)
    (now later : string) (year month : R) :
  (year, month) <> (types.year data, types.month data) ->
  find (storage.isMonth year month)
       (storage.upsertMonth numberToString entries data now later)
  = find (storage.isMonth year month) entries.
Proof.
  intros Hne. unfold storage.upsertMonth. cbv zeta.
  set (same := storage.isMonth (types.year data) (types.month data)).
  rewrite !find_filter, filter_sort by (apply isMonth_tied).
  f_equal.
  destruct (existsb same entries).
  - apply filter_replaceFirst_other.
    + intros d. apply isMonth_apart. exact Hne.
    + apply isMonth_iff. split; reflexivity.
  - apply filter_push_other with (test := same).
    + intros d. apply isMonth_apart. exact Hne.
    + apply isMonth_iff. split; reflexivity.
Qed.

Lemma saved_months (h : Host) (data : types.MonthlyData) (now later : string) :
  storage.writable h ->
  storage.getMonthlyData (storage.saveMonthlyData numberToString h data now later)
  = storage.upsertMonth numberToString (storage.getMonthlyData h) data now later.
Proof.
  intros Hw. unfold storage.getMonthlyData, storage.saveMonthlyData. cbv zeta.
  rewrite state_reads_back; [reflexivity |].
  destruct Hw as [Hw Hf]. destruct (storage.sharing h); split; assumption.
Qed.

Lemma deleted_months (h : Host) (year month : R) :
  storage.writable h ->
  storage.getMonthlyData (storage.deleteMonthlyData h year month)
  = filter (fun d => negb (storage.isMonth year month d)) (storage.getMonthlyData h).
Proof.
  intros Hw. unfold storage.getMonthlyData, storage.deleteMonthlyData. cbv zeta.
  rewrite state_reads_back; [reflexivity |].
  destruct Hw as [Hw Hf]. destruct (storage.sharing h); split; assumption.
Qed.


Lemma saveAppState_default (h : Host) (state : types.AppState Objective) :
  storage.defaultState (storage.saveAppState h state) = storage.defaultState h.
Proof.
  unfold storage.saveAppState.
  destruct (storage.hasWindow h), (storage.storageFull h); reflexivity.
Qed.

Lemma shared_default (h : Host) :
  storage.sharing h <> storage.NothingShared ->
  storage.getMonthlyData h = types.monthlyData (storage.defaultState h).
Proof.
  unfold storage.sharing, storage.getMonthlyData, storage.getAppState.
  destruct (storage.hasWindow h); cbn; [| reflexivity].
  destruct (storage.item h) as [| | parsed]; cbn; try reflexivity.
  destruct (storage.s_monthlyData parsed); [congruence | reflexivity].
Qed.

Lemma same_object (h : Host) :
  storage.sharing h = storage.SameObject ->
  storage.getAppState h = storage.defaultState h.
Proof.
  unfold storage.sharing, storage.getAppState.
  destruct (storage.hasWindow h); cbn; [| reflexivity].
  destruct (storage.item h) as [| | parsed]; cbn; try reflexivity.
  destruct (storage.s_monthlyData parsed); discriminate.
Qed.

(** X21: on a host with a window and room in the storage, the state
    that [saveAppState] stores is the state that [getAppState] reads
    next, whatever was stored before: every key of the state is written,
    so the defaults fill nothing in. *)
Theorem saved_state_reads_back (h : Host) (state : types.AppState Objective) :
  storage.writable h ->
  storage.getAppState (storage.saveAppState h state) = state.
Proof. apply state_reads_back. Qed.

(** X22: after [saveMonthlyData] on a host with a window and room in
    the storage, [getMonthData] for the year and month of the data finds
    the entry just written, also when several entries of that month were
    stored.  When the month was there, it is the data, field for field,
    with its own [id] and [createdAt], and [updatedAt] set to the date
    read; when it was not, it is the data with the [id] made of year,
    a dash and month, and [createdAt] and [updatedAt] set to the two
    dates read. *)
Theorem saved_month_reads_back (h : Host) (data : types.MonthlyData)
    (now later : string) :
  storage.writable h ->
  let found :=
    storage.getMonthData (storage.saveMonthlyData numberToString h data now later)
      (types.year data) (types.month data) in
  ((exists d, In d (storage.getMonthlyData h)
              /\ types.year d = types.year data /\ types.month d = types.month data) ->
   found = Some {| types.id := types.id data;
                   types.year := types.year data;
                   types.month := types.month data;
                   types.electricityKwh := types.electricityKwh data;
                   types.naturalGasTherm := types.naturalGasTherm data;
                   types.waterGallons := types.waterGallons data;
                   types.inboundDeliveryMiles := types.inboundDeliveryMiles data;
                   types.outboundShippingMiles := types.outboundShippingMiles data;
                   types.employeeCount := types.employeeCount data;
                   types.squareFeet := types.squareFeet data;
                   types.notes := types.notes data;
                   types.createdAt := types.createdAt data;
                   types.updatedAt := now |})
  /\ ((forall d, In d (storage.getMonthlyData h) ->
                 ~ (types.year d = types.year data /\ types.month d = types.month data)) ->
      found = Some {| types.id := (numberToString (types.year data) ++ "-"
                                   ++ numberToString (types.month data))%string;
                      types.year := types.year data;
                      types.month := types.month data;
                      types.electricityKwh := types.electricityKwh data;
                      types.naturalGasTherm := types.naturalGasTherm data;
                      types.waterGallons := types.waterGallons data;
                      types.inboundDeliveryMiles := types.inboundDeliveryMiles data;
                      types.outboundShippingMiles := types.outboundShippingMiles data;
                      types.employeeCount := types.employeeCount data;
                      types.squareFeet := types.squareFeet data;
                      types.notes := types.notes data;
                      types.createdAt := now;
                      types.updatedAt := later |}).
Proof.
  intros Hw found. subst found. unfold storage.getMonthData.
  rewrite (saved_months h data now later Hw), upsert_finds.
  split.
  - intros Hex. apply existsb_isMonth in Hex. rewrite Hex. reflexivity.
  - intros Hnone.
    destruct (existsb _ (storage.getMonthlyData h)) eqn:E; [| reflexivity].
    apply existsb_isMonth in E as (d & Hin & Hd). exfalso. exact (Hnone d Hin Hd).
Qed.

(** X23: after [saveMonthlyData] on a host with a window and room in
    the storage, the stored months are in order, newest first, whatever
    order they were stored in before: every entry is followed only by
    entries of an earlier year, or of the same year and the same or an
    earlier month. *)
Theorem saved_months_newest_first (h : Host) (data : types.MonthlyData)
    (now later : string) :
  storage.writable h ->
  StronglySorted
    (fun a b => types.year b < types.year a
                \/ (types.year a = types.year b /\ types.month b <= types.month a))
    (storage.getMonthlyData (storage.saveMonthlyData numberToString h data now later)).
Proof.
  intros Hw. rewrite (saved_months h data now later Hw).
  unfold storage.upsertMonth. cbv zeta.
  eapply StronglySorted_weaken; [| apply sort_newestFirst].
  intros a b. apply byDate_order.
Qed.

(** X24: on a host with a window and room in the storage,
    [saveMonthlyData] leaves what [getMonthData] finds for every other
    month as it was. *)
Theorem save_keeps_other_months (h : Host) (data : types.MonthlyData)
    (now later : string) (year month : R) :
  storage.writable h ->
  (year, month) <> (types.year data, types.month data) ->
  storage.getMonthData (storage.saveMonthlyData numberToString h data now later)
    year month
  = storage.getMonthData h year month.
Proof.
  intros Hw Hne. unfold storage.getMonthData.
  rewrite (saved_months h data now later Hw). apply upsert_keeps_others. exact Hne.
Qed.

(** X25: after [deleteMonthlyData] on a host with a window and room in
    the storage, [getMonthData] finds nothing for the month, finds for
    every other month what it found before, and months that were in
    order are still in order. *)
Theorem deleted_month_is_gone (h : Host) (year month : R) :
  storage.writable h ->
  let h' := storage.deleteMonthlyData h year month in
  storage.getMonthData h' year month = None
  /\ (forall year' month',
        (year', month') <> (year, month) ->
        storage.getMonthData h' year' month' = storage.getMonthData h year' month')
  /\ (storage.newestFirst (storage.getMonthlyData h) ->
      storage.newestFirst (storage.getMonthlyData h')).
Proof.
  intros Hw h'. subst h'. unfold storage.getMonthData.
  rewrite (deleted_months h year month Hw). repeat split.
  - rewrite find_filter, filter_removed_same. reflexivity.
  - intros year' month' Hne. rewrite !find_filter. f_equal.
    apply filter_removed_other. intros d. apply isMonth_apart. exact Hne.
  - apply newestFirst_filter.
Qed.

(** X26: after [updateSettings] on a host with a window and room in
    the storage, [getSettings] returns the former settings with the
    given keys written over them, the months are untouched, and
    [verifyPassword] accepts exactly the new password when one was given
    and what it accepted before otherwise. *)
Theorem updated_settings_read_back (h : Host) (over : storage.PartialSettings) :
  storage.writable h ->
  let h' := storage.updateSettings h over in
  storage.getSettings h' = storage.spreadSettings (storage.getSettings h) over
  /\ storage.getMonthlyData h' = storage.getMonthlyData h
  /\ (forall word password,
        storage.p_adminPassword over = Some word ->
        storage.verifyPassword h' password = true <-> password = word)
  /\ (storage.p_adminPassword over = None ->
      forall password,
        storage.verifyPassword h' password = storage.verifyPassword h password).
Proof.
  intros Hw h'.
  assert (Hread : storage.getAppState h'
                  = {| types.monthlyData := types.monthlyData (storage.getAppState h);
                       types.objectives := types.objectives (storage.getAppState h);
                       types.settings :=
                         storage.spreadSettings (types.settings (storage.getAppState h))
                           over |}).
  { subst h'. unfold storage.updateSettings. cbv zeta.
    apply state_reads_back.
    destruct Hw as [Hw Hf]. destruct (storage.sharing h); split; assumption. }
  unfold storage.verifyPassword, storage.getSettings, storage.getMonthlyData.
  rewrite Hread. cbn. split; [reflexivity | split; [reflexivity | split]].
  - intros word password Hword. rewrite Hword. apply String.eqb_eq.
  - intros Hnone password. rewrite Hnone. reflexivity.
Qed.

(** X27: when [getAppState] hands out [DEFAULT_STATE] itself, or a
    state with its array of months (no window, nothing stored, a text
    that cannot be read, or a stored object without [monthlyData]),
    [saveMonthlyData] writes the month into [DEFAULT_STATE]: every
    later read that falls back on the default finds that month, stored
    or not. *)
Theorem save_writes_default_state (h : Host) (data : types.MonthlyData)
    (now later : string) :
  storage.sharing h <> storage.NothingShared ->
  let h' := storage.saveMonthlyData numberToString h data now later in
  types.monthlyData (storage.defaultState h')
  = storage.upsertMonth numberToString (types.monthlyData (storage.defaultState h))
      data now later
  /\ forall h2 : Host,
       storage.defaultState h2 = storage.defaultState h' ->
       storage.sharing h2 = storage.SameObject ->
       storage.getMonthData h2 (types.year data) (types.month data)
       = Some (if existsb (storage.isMonth (types.year data) (types.month data))
                    (types.monthlyData (storage.defaultState h))
               then storage.updatedEntry data now
               else storage.createdEntry numberToString data now later).
Proof.
  intros Hshared h'.
  assert (Hdefault : types.monthlyData (storage.defaultState h')
                     = storage.upsertMonth numberToString
                         (types.monthlyData (storage.defaultState h)) data now later).
  { subst h'. unfold storage.saveMonthlyData. cbv zeta.
    rewrite saveAppState_default.
    pose proof (shared_default h Hshared) as Hsame.
    unfold storage.getMonthlyData in Hsame. rewrite Hsame.
    destruct (storage.sharing h); [reflexivity | reflexivity | congruence]. }
  split; [exact Hdefault |].
  intros h2 Hd2 Hs2. unfold storage.getMonthData, storage.getMonthlyData.
  rewrite (same_object h2 Hs2), Hd2, Hdefault. apply upsert_finds.
Qed.

End StorageFacts.

Lemma saved_state_reads_back_witness :
  let state : types.AppState unit :=
    {| types.monthlyData := []; types.objectives := [tt];
       types.settings := storage.DEFAULT_SETTINGS |} in
  storage.getAppState (storage.saveAppState (storage.loaded true false storage.Unreadable) state)
  = state.
Proof.
  intros state. apply saved_state_reads_back. split; reflexivity.
Defined.

Lemma saved_month_reads_back_witness :
  let entry := fun (y m kwh : R) (stamp : string) =>
    {| types.id := "e"; types.year := y; types.month := m;
       types.electricityKwh := kwh; types.naturalGasTherm := 400;
       types.waterGallons := 25000; types.inboundDeliveryMiles := 800;
       types.outboundShippingMiles := 400; types.employeeCount := 25;
       types.squareFeet := 10000; types.notes := None;
       types.createdAt := stamp; types.updatedAt := stamp |} in
  let text := fun _ : R => "n"%string in
  let stored : storage.Host unit :=
    storage.loaded true false
      (storage.Parsed {| storage.s_monthlyData :=
                           Some [entry 2024 5 15000 "t0"%string; entry 2024 4 14000 "t0"%string];
                         storage.s_objectives := None;
                         storage.s_settings := None |}) in
  storage.getMonthData
    (storage.saveMonthlyData text stored (entry 2024 5 16000 "t9"%string) "t1" "t2") 2024 5
  = Some {| types.id := "e"; types.year := 2024; types.month := 5;
            types.electricityKwh := 16000; types.naturalGasTherm := 400;
            types.waterGallons := 25000; types.inboundDeliveryMiles := 800;
            types.outboundShippingMiles := 400; types.employeeCount := 25;
            types.squareFeet := 10000; types.notes := None;
            types.createdAt := "t9"; types.updatedAt := "t1" |}
  /\ storage.getMonthData
       (storage.saveMonthlyData text stored (entry 2024 6 17000 "t9"%string) "t1" "t2") 2024 6
     = Some {| types.id := "n-n"; types.year := 2024; types.month := 6;
               types.electricityKwh := 17000; types.naturalGasTherm := 400;
               types.waterGallons := 25000; types.inboundDeliveryMiles := 800;
               types.outboundShippingMiles := 400; types.employeeCount := 25;
               types.squareFeet := 10000; types.notes := None;
               types.createdAt := "t1"; types.updatedAt := "t2" |}.
Proof.
  intros entry text stored. split.
  - apply (proj1 (saved_month_reads_back text stored (entry 2024 5 16000 "t9"%string)
                    "t1" "t2" (conj eq_refl eq_refl))).
    exists (entry 2024 5 15000 "t0"%string). split; [left; reflexivity | split; reflexivity].
  - apply (proj2 (saved_month_reads_back text stored (entry 2024 6 17000 "t9"%string)
                    "t1" "t2" (conj eq_refl eq_refl))).
    intros d [<- | [<- | []]] [_ Hm]; cbn in Hm; lra.
Defined.

Lemma saved_months_newest_first_witness :
  let entry := fun (y m kwh : R) (stamp : string) =>
    {| types.id := "e"; types.year := y; types.month := m;
       types.electricityKwh := kwh; types.naturalGasTherm := 400;
       types.waterGallons := 25000; types.inboundDeliveryMiles := 800;
       types.outboundShippingMiles := 400; types.employeeCount := 25;
       types.squareFeet := 10000; types.notes := None;
       types.createdAt := stamp; types.updatedAt := stamp |} in
  let text := fun _ : R => "n"%string in
  let stored : storage.Host unit :=
    storage.loaded true false
      (storage.Parsed {| storage.s_monthlyData :=
                           Some [entry 2023 11 13000 "t0"%string; entry 2024 3 14000 "t0"%string];
                         storage.s_objectives := None;
                         storage.s_settings := None |}) in
  let saved := storage.getMonthlyData
                 (storage.saveMonthlyData text stored (entry 2024 1 16000 "t9"%string)
                    "t1" "t2") in
  StronglySorted
    (fun a b => types.year b < types.year a
                \/ (types.year a = types.year b /\ types.month b <= types.month a))
    saved
  /\ map (fun d => (types.year d, types.month d)) saved
     = [(2024, 3); (2024, 1); (2023, 11)].
Proof.
  intros entry text stored saved.
  pose proof (saved_months_newest_first text stored (entry 2024 1 16000 "t9"%string)
                "t1" "t2" (conj eq_refl eq_refl)) as Hsorted.
  split; [exact Hsorted |].
  subst saved. rewrite (saved_months text stored _ "t1" "t2" (conj eq_refl eq_refl)).
  unfold storage.upsertMonth, storage.isMonth, calculations.sameNumber,
    storage.sort, storage.byDateDescending.
  cbn.
  repeat (match goal with
          | |- context [Req_dec_T ?a ?b] => destruct (Req_dec_T a b); try lra
          | |- context [Rle_dec ?a ?b] => destruct (Rle_dec a b); try lra
          end; cbn).
  reflexivity.
Defined.

Lemma save_keeps_other_months_witness :
  let may := {| types.id := ""; types.year := 2024; types.month := 5;
                types.electricityKwh := 15000; types.naturalGasTherm := 400;
                types.waterGallons := 25000; types.inboundDeliveryMiles := 800;
                types.outboundShippingMiles := 400; types.employeeCount := 25;
                types.squareFeet := 10000; types.notes := None;
                types.createdAt := ""; types.updatedAt := "" |} in
  let text := fun _ : R => "n"%string in
  let fresh : storage.Host unit := storage.loaded true false storage.Absent in
  storage.getMonthData (storage.saveMonthlyData text fresh may "t1" "t2") 2024 4
  = storage.getMonthData fresh 2024 4.
Proof.
  intros may text fresh.
  apply (save_keeps_other_months text fresh may "t1" "t2" 2024 4).
  - split; reflexivity.
  - intros E. injection E as E. cbn in E. lra.
Defined.

Lemma deleted_month_is_gone_witness :
  let fresh : storage.Host unit := storage.loaded true false storage.Absent in
  storage.getMonthData (storage.deleteMonthlyData fresh 2024 5) 2024 5 = None.
Proof.
  intros fresh.
  apply (proj1 (deleted_month_is_gone fresh 2024 5 (conj eq_refl eq_refl))).
Defined.

Lemma updated_settings_read_back_witness :
  let fresh : storage.Host unit := storage.loaded true false storage.Absent in
  let over := {| storage.p_facilityName := None; storage.p_defaultSquareFeet := None;
                 storage.p_defaultEmployeeCount := None;
                 storage.p_adminPassword := Some "s3cret"%string |} in
  storage.getSettings (storage.updateSettings fresh over)
  = storage.spreadSettings (storage.getSettings fresh) over.
Proof.
  intros fresh over.
  apply (proj1 (updated_settings_read_back fresh over (conj eq_refl eq_refl))).
Defined.

Lemma save_writes_default_state_witness :
  let may := {| types.id := ""; types.year := 2024; types.month := 5;
                types.electricityKwh := 15000; types.naturalGasTherm := 400;
                types.waterGallons := 25000; types.inboundDeliveryMiles := 800;
                types.outboundShippingMiles := 400; types.employeeCount := 25;
                types.squareFeet := 10000; types.notes := None;
                types.createdAt := ""; types.updatedAt := "" |} in
  let text := fun _ : R => "n"%string in
  let server : storage.Host unit := storage.loaded false false storage.Absent in
  storage.sharing server <> storage.NothingShared
  /\ storage.getMonthData (storage.saveMonthlyData text server may "t1" "t2") 2024 5
     = Some (storage.createdEntry text may "t1" "t2").
Proof.
  intros may text server.
  assert (Hshared : storage.sharing server <> storage.NothingShared)
    by (cbn; discriminate).
  split; [exact Hshared |].
  apply (proj2 (save_writes_default_state text server may "t1" "t2" Hshared));
    reflexivity.
Defined.
